(** * Sky brightness model of [src/skybrightness.c], with the helpers of
      [src/utils/swe_utils.c] and the pointer of [src/modules/pointer.c]

    The C code of the sky brightness model is written in single precision
    floating point and calls the C mathematical library.  It is embedded here
    once, over an abstract arithmetic ([FloatArith]), and then read in three
    arithmetics:

    - [binary32]: IEEE 754 single precision (the Standard Library's
      [SpecFloat]), the mathematical library being a parameter;
    - [R]: exact real arithmetic, the mathematical library being the
      functions it approximates;
    - [xreal]: exact real arithmetic that records domain errors (division by
      zero, logarithm of a non-positive number, ...).

    Properties that only depend on the control flow of the code are proved for
    every arithmetic; analytic properties are proved in exact arithmetic.

    The string and gzip helpers work on bytes ([SweUtils]); the radii of the
    pointer's strokes are written over the same abstract arithmetic
    ([Pointer]). *)

From Stdlib Require Import ZArith Bool Reals Lra Lia List.
From Stdlib Require Import Floats.SpecFloat.
From Stdlib Require Import Init.Byte.
From Stdlib Require Strings.Byte.

Set Implicit Arguments.

(** ** The arithmetic the code is written in *)

Class FloatArith (F : Type) : Type := {
  (** the decimal literal [m * 10^e], as the compiler reads it *)
  lit : Z -> Z -> F;
  (** conversion of an [int] *)
  of_int : Z -> F;
  add : F -> F -> F;
  sub : F -> F -> F;
  mul : F -> F -> F;
  div : F -> F -> F;
  (** the comparisons [<] and [<=] of C; [a > b] is [b < a] *)
  ltb : F -> F -> bool;
  leb : F -> F -> bool;
  (** <math.h> *)
  expf : F -> F;
  logf : F -> F;
  cosf : F -> F;
  sinf : F -> F;
  sqrtf : F -> F;
  fabsf : F -> F;
  powf : F -> F -> F
}.

Declare Scope flt_scope.
Delimit Scope flt_scope with flt.
Infix "+" := add : flt_scope.
Infix "-" := sub : flt_scope.
Infix "*" := mul : flt_scope.
Infix "/" := div : flt_scope.
Infix "<?" := ltb : flt_scope.
Infix "<=?" := leb : flt_scope.
Notation "x >? y" := (ltb y x) (only parsing) : flt_scope.

(** What the control flow of the code relies on; it holds of IEEE 754
    comparisons (where a NaN compares false with everything) as well as of the
    order of the real numbers. *)
Class FloatOrder (F : Type) `{FloatArith F} : Prop := {
  ltb_irrefl : forall x : F, ltb x x = false;
  ltb_asym : forall x y : F, ltb x y = true -> ltb y x = false;
  ltb_not_leb : forall x y : F, ltb x y = true -> leb y x = false
}.
Arguments FloatOrder F {_}.

(** The two thresholds of the zenith distance of the Moon, 80 and 90, are in
    this order: what is above 90 is not below 80.  It holds of the real
    numbers and of IEEE 754 single precision. *)
Class HorizonOrder (F : Type) `{FloatArith F} : Prop := {
  above_90_not_below_80 :
    forall x : F, ltb (lit 90 0) x = true -> ltb x (lit 80 0) = false
}.
Arguments HorizonOrder F {_}.

(** ** The session state

    Modelled from the spec: [skybrightness_t] is declared in
    [skybrightness.h], which is not among the sources.  The fields are the
    ones [skybrightness_prepare] writes; the year and the month are integers
    (spec, section 3), every other field is a [float]. *)
Record skybrightness_t (F : Type) : Type := {
  Y : Z;
  M : Z;
  AM : F;
  LA : F;
  AL : F;
  TE : F;
  RH : F;
  ZM : F;
  ZS : F;
  k_BT : F;
  k_BM : F;
  k_BN : F;
  K : F;
  XM : F;
  XS : F
}.

Section Code.

Context {F : Type} `{FloatArith F}.
Local Open Scope flt_scope.

(** Modelled from the spec: the macro [max] comes from [utils/utils.h], which
    is not among the sources; it is the usual [a > b ? a : b] ("angular
    distances are clamped to a minimum of 1 degree"). *)
Definition max (a b : F) : F := if a >? b then a else b.

Definition pow2 (x : F) : F := x * x.
Definition pow4 (x : F) : F := x * x * x * x.

(** [x *= x], [n] times. *)
Fixpoint squarings (n : nat) (x : F) : F :=
  match n with
  | O => x
  | S n' => squarings n' (x * x)
  end.

Definition fast_expf (x : F) : F :=
  let x := lit 1 0 + x / lit 1024 0 in
  squarings 10 x.

Definition exp10f (x : F) : F := expf (x * logf (lit 10 0)).
Definition fast_exp10f (x : F) : F := fast_expf (x * logf (lit 10 0)).

(** Radiant to degree. *)
Definition DR : F := lit 180 0 / lit 314159 (-5).
Definition RD : F := lit 314159 (-5) / lit 180 0.

(** Nanolambert to cd/m2 *)
Definition NLAMBERT_TO_CDM2 : F := lit 3183 (-9).

Definition WA : F := lit 55 (-2).
Definition MO : F := lit (-1105) (-2).
Definition OZ : F := lit 31 (-3).
Definition WT : F := lit 31 (-3).
Definition BO : F := lit 1 (-13).
Definition CM : F := lit 0 0.
Definition MS : F := lit (-2674) (-2).

(** The air mass formula of lines 94 and 99, on a zenith distance in
    degrees. *)
Definition airmass (Zd : F) : F :=
  lit 1 0 / (cosf (Zd * RD) + lit 25 (-3) * expf (lit (-11) 0 * cosf (Zd * RD))).

(** The composite extinction coefficient, lines 79 to 90. *)
Definition extinction (month : Z) (LA AL TE RH : F) : F :=
  let M := of_int month in
  let LT := LA * RD in
  let RA := (M - lit 3 0) * lit 30 0 * RD in
  let SL := if LA >? lit 0 0 then lit 1 0 else lit (-1) 0 in
  let KR := lit 1066 (-4) * expf (lit (-1) 0 * AL / lit 8200 0)
            * powf (WA / lit 55 (-2)) (lit (-4) 0) in
  let KA := lit 1 (-1) * powf (WA / lit 55 (-2)) (lit (-13) (-1))
            * expf (lit (-1) 0 * AL / lit 1500 0) in
  let KA := KA * powf (lit 1 0 - lit 32 (-2) / logf (RH / lit 100 0)) (lit 133 (-2))
            * (lit 1 0 + lit 33 (-2) * SL * sinf RA) in
  let KO := OZ * (lit 3 0 + lit 4 (-1) * (LT * cosf RA - cosf (lit 3 0 * LT)))
            / lit 3 0 in
  let KW := WT * lit 94 (-2) * (RH / lit 100 0) * expf (TE / lit 15 0)
            * expf (lit (-1) 0 * AL / lit 8200 0) in
  KR + KA + KO + KW.

(** [skybrightness_prepare] writes every field of [*sb]: the state it leaves
    is a function of its arguments alone. *)
Definition skybrightness_prepare
    (year month : Z)
    (moon_phase latitude altitude temperature relative_humidity
     dist_moon_zenith dist_sun_zenith
     twilight_coef moon_brightness_coef darknight_brightness_coef : F)
  : skybrightness_t F :=
  let AM := moon_phase * DR in
  let LA := latitude * DR in
  let AL := altitude in
  let TE := temperature in
  let RH := relative_humidity in
  let ZM := dist_moon_zenith * DR in
  let ZS := dist_sun_zenith * DR in
  let K := extinction month LA AL TE RH in
  (* air mass Moon *)
  let XM := airmass ZM in
  let XM := if ZM >? lit 90 0 then lit 40 0 else XM in
  (* air mass Sun *)
  let XS := airmass ZS in
  let XS := if ZS >? lit 90 0 then lit 40 0 else XS in
  {| Y := year; M := month; AM := AM; LA := LA; AL := AL; TE := TE; RH := RH;
     ZM := ZM; ZS := ZS;
     k_BT := twilight_coef; k_BM := moon_brightness_coef;
     k_BN := darknight_brightness_coef;
     K := K; XM := XM; XS := XS |}.

(** *** [skybrightness_get_luminance], block by block *)

(** Angular distance to the Moon or to the Sun (deg), lines 117 and 119. *)
Definition angular_dist (d : F) : F := max (d * DR) (lit 1 0).

(** Line 130: air mass of the direction looked at. *)
Definition target_airmass (zenith_dist : F) : F :=
  let Z := zenith_dist * DR in
  let ZZ := Z * RD in
  lit 1 0 / (cosf ZZ + lit 25 (-3) * fast_expf (lit (-11) 0 * cosf ZZ)).

(** 2130 Dark night sky brightness *)
Definition dark_night (sb : skybrightness_t F) (zenith_dist : F) : F :=
  let Y := of_int (Y sb) in
  let Z := zenith_dist * DR in
  let ZZ := Z * RD in
  let K := K sb in
  let X := target_airmass zenith_dist in
  let BN := BO * (lit 1 0 + lit 3 (-1)
                  * cosf (lit 6283 (-3) * (Y - lit 1992 0) / lit 11 0)) in
  let BN := BN * (lit 4 (-1) + lit 6 (-1)
                  / sqrtf (lit 1 0 - lit 96 (-2) * powf (sinf ZZ) (lit 2 0))) in
  let BN := BN * fast_exp10f (lit (-4) (-1) * K * X) in
  BN * k_BN sb.

(** 2170 Moonlight brightness *)
Definition moonlight (sb : skybrightness_t F) (moon_dist zenith_dist : F) : F :=
  let AM := AM sb in
  let RM := angular_dist moon_dist in
  let K := K sb in
  let X := target_airmass zenith_dist in
  let XM := XM sb in
  let MM := lit (-1273) (-2) + lit 26 (-3) * fabsf AM + lit 4 (-9) * pow4 AM in
  let MM := MM + CM in
  let C3 := fast_exp10f (lit (-4) (-1) * K * XM) in
  let FM := lit 62 6 / pow2 RM + exp10f (lit 615 (-2) - RM / lit 40 0) in
  let FM := FM + exp10f (lit 536 (-2)) * (lit 106 (-2) + pow2 (cosf (RM * RD))) in
  let BM := exp10f (lit (-4) (-1) * (MM - MO + lit 4327 (-2))) in
  let BM := BM * (lit 1 0 - exp10f (lit (-4) (-1) * K * X)) in
  let BM := BM * (FM * C3 + lit 440000 0 * (lit 1 0 - C3)) in
  BM * k_BM sb.

(** 2260 Twilight brightness *)
Definition twilight (sb : skybrightness_t F) (sun_dist zenith_dist : F) : F :=
  let ZS := ZS sb in
  let RS := angular_dist sun_dist in
  let Z := zenith_dist * DR in
  let K := K sb in
  let X := target_airmass zenith_dist in
  let HS := lit 90 0 - ZS in
  let BT := exp10f (lit (-4) (-1)
                    * (MS - MO + lit 325 (-1) - HS - Z / (lit 360 0 * K))) in
  let BT := BT * (lit 100 0 / RS)
            * (lit 1 0 - exp10f (lit (-4) (-1) * K * X)) in
  BT * k_BT sb.

(** 2300 Daylight brightness *)
Definition daylight (sb : skybrightness_t F) (sun_dist zenith_dist : F) : F :=
  let RS := angular_dist sun_dist in
  let K := K sb in
  let X := target_airmass zenith_dist in
  let XS := XS sb in
  let C4 := fast_exp10f (lit (-4) (-1) * K * XS) in
  let FS := lit 62 6 / pow2 RS + fast_exp10f (lit 615 (-2) - RS / lit 40 0) in
  let FS := FS + fast_exp10f (lit 536 (-2))
                 * (lit 106 (-2) + pow2 (cosf (RS * RD))) in
  let BD := exp10f (lit (-4) (-1) * (MS - MO + lit 4327 (-2))) in
  let BD := BD * (lit 1 0 - exp10f (lit (-4) (-1) * K * X)) in
  BD * (FS * C4 + lit 440000 0 * (lit 1 0 - C4)).

(** 2370 Total sky brightness.  Lines 168 to 171: the dark night sky and one
    of the twilight and daylight terms. *)
Definition night_and_sun (BN BT BD : F) : F :=
  if BD >? BT then BN + BT else BN + BD.

(** Lines 172 to 176: the impact of the Moon, from its zenith distance. *)
Definition add_moon (ZM BM B : F) : F :=
  let B := if ZM <? lit 80 0 then B + BM else B in
  let B := if (ZM >? lit 80 0) && (ZM <=? lit 90 0)
           then B + BM * (lit 90 0 - ZM) / lit 10 0 else B in
  B.

Definition total_brightness (ZM BN BM BT BD : F) : F :=
  add_moon ZM BM (night_and_sun BN BT BD).

(** The sky brightness before the conversion of units (the variable [B] at
    line 177). *)
Definition sky_brightness (sb : skybrightness_t F)
    (moon_dist sun_dist zenith_dist : F) : F :=
  total_brightness (ZM sb)
    (dark_night sb zenith_dist)
    (moonlight sb moon_dist zenith_dist)
    (twilight sb sun_dist zenith_dist)
    (daylight sb sun_dist zenith_dist).

Definition skybrightness_get_luminance (sb : skybrightness_t F)
    (moon_dist sun_dist zenith_dist : F) : F :=
  let B := sky_brightness sb moon_dist sun_dist zenith_dist in
  (* 250 Visual limiting magnitude *)
  let BL := B / lit 111 (-17) in (* in nanolamberts *)
  BL * NLAMBERT_TO_CDM2.

End Code.

(** ** Exact real arithmetic *)

Module Exact.

Local Open Scope R_scope.

Definition Rlit (m e : Z) : R :=
  match e with
  | Z0 => IZR m
  | Zpos p => IZR (m * Z.pow_pos 10 p)
  | Zneg p => IZR m / IZR (Z.pow_pos 10 p)
  end.

Definition Rltb (x y : R) : bool := if Rlt_dec x y then true else false.
Definition Rleb (x y : R) : bool := if Rle_dec x y then true else false.

(** The integer a real number is, if it is one. *)
Definition int_of (y : R) : option Z :=
  if Req_dec_T (IZR (Int_part y)) y then Some (Int_part y) else None.

(** [pow] of <math.h> on the real numbers, where its value is finite:
    a positive base, an integral exponent, or a zero base with a positive
    exponent. *)
Definition pow_spec (x y : R) : option R :=
  if Rlt_dec 0 x then Some (Rpower x y)
  else match int_of y with
       | Some n =>
           if Req_dec_T x 0
           then (if (n <? 0)%Z then None else Some (powerRZ x n))
           else Some (powerRZ x n)
       | None =>
           if Req_dec_T x 0
           then (if Rlt_dec 0 y then Some 0 else None)
           else None
       end.

Definition Rpowf (x y : R) : R :=
  match pow_spec x y with
  | Some r => r
  | None => 0
  end.

#[export] Instance RArith : FloatArith R := {|
  lit := Rlit;
  of_int := IZR;
  add := Rplus;
  sub := Rminus;
  mul := Rmult;
  div := Rdiv;
  ltb := Rltb;
  leb := Rleb;
  expf := exp;
  logf := ln;
  cosf := cos;
  sinf := sin;
  sqrtf := sqrt;
  fabsf := Rabs;
  powf := Rpowf
|}.

End Exact.

(** ** IEEE 754 single precision *)

Module Binary32.

Definition prec : Z := 24.
Definition emax : Z := 128.

Definition float : Type := spec_float.

(** An integer, rounded to nearest even. *)
Definition of_Z (n : Z) : float := binary_normalize prec emax n 0 false.

(** The decimal literal [m * 10^e], rounded to nearest even: for a negative
    [e] the quotient of the integers [m] and [10^(-e)], which [SFdiv] rounds
    once. *)
Definition of_decimal (m e : Z) : float :=
  match e with
  | Zneg p =>
      match m with
      | Z0 => S754_zero false
      | Zpos q =>
          SFdiv prec emax (S754_finite false q 0)
            (S754_finite false (Pos.pow 10 p) 0)
      | Zneg q =>
          SFdiv prec emax (S754_finite true q 0)
            (S754_finite false (Pos.pow 10 p) 0)
      end
  | _ => of_Z (m * 10 ^ e)
  end.

(** The functions of <math.h> that IEEE 754 does not define: whatever the C
    library of the platform computes. *)
Record libm : Type := {
  m_expf : float -> float;
  m_logf : float -> float;
  m_cosf : float -> float;
  m_sinf : float -> float;
  m_powf : float -> float -> float
}.

Definition B32Arith (lm : libm) : FloatArith float := {|
  lit := of_decimal;
  of_int := of_Z;
  add := SFadd prec emax;
  sub := SFsub prec emax;
  mul := SFmul prec emax;
  div := SFdiv prec emax;
  ltb := SFltb;
  leb := SFleb;
  expf := m_expf lm;
  logf := m_logf lm;
  cosf := m_cosf lm;
  sinf := m_sinf lm;
  sqrtf := SFsqrt prec emax;
  fabsf := SFabs;
  powf := m_powf lm
|}.

End Binary32.

(** ** Exact real arithmetic with domain errors

    [Undef] stands for the results that are not finite numbers: the
    infinities and NaN.  A division by zero, the logarithm of a non-positive
    number, the square root of a negative number and a power outside the
    domain of [pow_spec] are [Undef], and so is every operation on [Undef];
    a comparison with [Undef] is false.  (Rounding and overflow are not
    modelled.)  When a computation ends in [Fin r], no operation of it left
    its domain. *)

Module Checked.

Import Exact.
Local Open Scope R_scope.

Inductive xreal : Type :=
| Fin (r : R)
| Undef.

Definition lift1 (f : R -> R) (x : xreal) : xreal :=
  match x with
  | Fin a => Fin (f a)
  | Undef => Undef
  end.

Definition lift2 (f : R -> R -> R) (x y : xreal) : xreal :=
  match x, y with
  | Fin a, Fin b => Fin (f a b)
  | _, _ => Undef
  end.

Definition Xdiv (x y : xreal) : xreal :=
  match x, y with
  | Fin a, Fin b => if Req_dec_T b 0 then Undef else Fin (a / b)
  | _, _ => Undef
  end.

Definition Xcmp (c : R -> R -> bool) (x y : xreal) : bool :=
  match x, y with
  | Fin a, Fin b => c a b
  | _, _ => false
  end.

Definition Xlog (x : xreal) : xreal :=
  match x with
  | Fin a => if Rlt_dec 0 a then Fin (ln a) else Undef
  | Undef => Undef
  end.

Definition Xsqrt (x : xreal) : xreal :=
  match x with
  | Fin a => if Rle_dec 0 a then Fin (sqrt a) else Undef
  | Undef => Undef
  end.

Definition Xpow (x y : xreal) : xreal :=
  match x, y with
  | Fin a, Fin b =>
      match pow_spec a b with
      | Some r => Fin r
      | None => Undef
      end
  | _, _ => Undef
  end.

#[export] Instance XArith : FloatArith xreal := {|
  lit := fun m e => Fin (Rlit m e);
  of_int := fun n => Fin (IZR n);
  add := lift2 Rplus;
  sub := lift2 Rminus;
  mul := lift2 Rmult;
  div := Xdiv;
  ltb := Xcmp Rltb;
  leb := Xcmp Rleb;
  expf := lift1 exp;
  logf := Xlog;
  cosf := lift1 cos;
  sinf := lift1 sin;
  sqrtf := Xsqrt;
  fabsf := lift1 Rabs;
  powf := Xpow
|}.

(** A session of finite numbers. *)
Definition fin_session (sb : skybrightness_t R) : skybrightness_t xreal :=
  {| Y := Y sb; M := M sb; AM := Fin (AM sb); LA := Fin (LA sb);
     AL := Fin (AL sb); TE := Fin (TE sb); RH := Fin (RH sb);
     ZM := Fin (ZM sb); ZS := Fin (ZS sb);
     k_BT := Fin (k_BT sb); k_BM := Fin (k_BM sb); k_BN := Fin (k_BN sb);
     K := Fin (K sb); XM := Fin (XM sb); XS := Fin (XS sb) |}.

End Checked.

(** ** Exact arithmetic: names for parts of the code

    The expressions below are sub-expressions of the code read in exact
    arithmetic; the lemmas [airmass_R], [extinction_R], [moonlight_R],
    [daylight_R], [twilight_R], [add_moon_R] and [luminance_R] relate them to
    the code. *)

Module Parts.

Import Exact.
Local Open Scope R_scope.

(** The factorial, as an integer. *)
Fixpoint zfact (n : nat) : Z :=
  match n with
  | O => 1
  | S n' => Z.of_nat n * zfact n'
  end.

(** The denominator of the air mass, on the cosine of the zenith distance. *)
Definition airmass_den (c : R) : R := c + 25 / 1000 * exp (-11 * c).

(** The ozone term, line 88: the only one that does not depend on the
    altitude. *)
Definition ozone (month : Z) (la : R) : R :=
  31 / 1000
  * (3 + 4 / 10 * (la * RD * cos ((IZR month - 3) * 30 * RD) - cos (3 * (la * RD))))
  / 3.

(** The factors of the Rayleigh and water vapour terms, and of the aerosol
    term, that do not depend on the altitude. *)
Definition rayleigh_water (te rh : R) : R :=
  1066 / 10000 * Rpowf (55 / 100 / (55 / 100)) (-4)
  + 31 / 1000 * (94 / 100) * (rh / 100) * exp (te / 15).

Definition aerosol (month : Z) (la rh : R) : R :=
  1 / 10 * Rpowf (55 / 100 / (55 / 100)) (-13 / 10)
  * Rpowf (1 - 32 / 100 / ln (rh / 100)) (133 / 100)
  * (1 + 33 / 100 * (if Rltb 0 la then 1 else -1) * sin ((IZR month - 3) * 30 * RD)).

(** The scattering functions of the Moon and of the Sun, lines 144-145 and
    161-162, and the factor [1 - 10^(-0.4 K X)] of lines 147, 156, 164. *)
Definition FM (moon_dist : R) : R :=
  62000000 / pow2 (angular_dist moon_dist)
  + exp10f (615 / 100 - angular_dist moon_dist / 40)
  + exp10f (536 / 100) * (106 / 100 + pow2 (cos (angular_dist moon_dist * RD))).

Definition FS (sun_dist : R) : R :=
  62000000 / pow2 (angular_dist sun_dist)
  + fast_exp10f (615 / 100 - angular_dist sun_dist / 40)
  + fast_exp10f (536 / 100) * (106 / 100 + pow2 (cos (angular_dist sun_dist * RD))).

Definition scattered (sb : skybrightness_t R) (zenith_dist : R) : R :=
  1 - exp10f (-4 / 10 * K sb * target_airmass zenith_dist).

Definition C3 (sb : skybrightness_t R) : R :=
  fast_exp10f (-4 / 10 * K sb * XM sb).
Definition C4 (sb : skybrightness_t R) : R :=
  fast_exp10f (-4 / 10 * K sb * XS sb).

(** Moon magnitude in V, lines 141-142. *)
Definition MM (sb : skybrightness_t R) : R :=
  -1273 / 100 + 26 / 1000 * Rabs (AM sb) + 4 / 1000000000 * pow4 (AM sb) + CM.

(** The share of the moonlight that is added, from the zenith distance of the
    Moon in degrees. *)
Definition moon_weight (zm : R) : R :=
  if Rltb zm 80 then 1
  else if Rltb 80 zm && Rleb zm 90 then (90 - zm) / 10
  else 0.

End Parts.

(** ** Sessions and directions used as examples, in exact arithmetic

    June 2020, on the equator at sea level, 0 degrees Celsius and 50 percent
    of relative humidity, full Moon, every scale coefficient 1; the sessions
    differ in the zenith distances of the Moon and of the Sun (in radians). *)

Module Examples.

Import Exact.
Local Open Scope R_scope.

Definition example_session (dist_moon_zenith dist_sun_zenith : R)
  : skybrightness_t R :=
  skybrightness_prepare 2020 6 0 0 0 0 50 dist_moon_zenith dist_sun_zenith
    1 1 1.

(** The Sun at the zenith, the Moon below the horizon. *)
Definition noon : skybrightness_t R := example_session 2 0.

(** The Sun and the Moon below the horizon. *)
Definition night : skybrightness_t R := example_session 2 2.

(** The Moon at 80 degrees, and at 90 degrees, from the zenith. *)
Definition moon_at_80 : skybrightness_t R := example_session (80 * RD) 2.
Definition moon_at_90 : skybrightness_t R := example_session (90 * RD) (90 * RD).

(** A direction whose zenith distance has cosine -1/10 (about 95.7
    degrees). *)
Definition below_horizon : R := acos (-1 / 10).

End Examples.

(** ** The helpers of [src/utils/swe_utils.c]

    A [char] is a byte.  A C string is given by the bytes from the pointer on:
    it ends at the first NUL, and the end of the list stands for the
    terminating NUL of a string whose bytes are all listed. *)

Module SweUtils.

Import ListNotations.

Definition char_code (c : byte) : Z := Z.of_N (Strings.Byte.to_N c).

(** The conversion of an [int] to [char]: the value modulo 256. *)
Definition char_of (z : Z) : byte :=
  match Strings.Byte.of_N (Z.to_N (z mod 256)) with
  | Some c => c
  | None => x00
  end.

Definition is_nul (c : byte) : bool := Strings.Byte.eqb c x00.

(** The bytes of the string, without the terminating NUL. *)
Fixpoint c_str (s : list byte) : list byte :=
  match s with
  | [] => []
  | c :: s' => if is_nul c then [] else c :: c_str s'
  end.

(** <string.h> *)
Fixpoint strlen (s : list byte) : nat :=
  match s with
  | [] => O
  | c :: s' => if is_nul c then O else S (strlen s')
  end.

(** [strcmp] returns the difference of the first two bytes that differ, read
    as [unsigned char], and 0 when the strings are equal up to their NUL. *)
Fixpoint strcmp (a b : list byte) : Z :=
  match a with
  | [] => 0 - char_code (hd x00 b)
  | ca :: a' =>
      let cb := hd x00 b in
      if Strings.Byte.eqb ca cb
      then (if is_nul ca then 0 else strcmp a' (tl b))
      else char_code ca - char_code cb
  end.

(** [None] is the NULL pointer; [str + n] drops [n] bytes. *)
Definition str_endswith (str end' : option (list byte)) : bool :=
  match str, end' with
  | Some str, Some end' =>
      if (strlen str <? strlen end')%nat then false
      else
        let start := skipn (strlen str - strlen end') str in
        (strcmp start end' =? 0)%Z
  | _, _ => false
  end.

(** The body of the loop of [str_to_upper]: [if (c >= 'a' && c <= 'z')
    c += 'A' - 'a';].  The test has the same value whether [char] is signed
    or not: a byte above 127 is negative, or above ['z']. *)
Definition to_upper (c : byte) : byte :=
  if ((char_code "a" <=? char_code c) && (char_code c <=? char_code "z"))%Z
  then char_of (char_code c + (char_code "A" - char_code "a"))
  else c.

(** The bytes [str_to_upper] writes to [out], in order; [out] does not
    overlap [s]. *)
Fixpoint str_to_upper (s : list byte) : list byte :=
  match s with
  | [] => [x00]
  | c :: s' => if is_nul c then [x00] else to_upper c :: str_to_upper s'
  end.

Section Mjd.

Context {F : Type} `{FloatArith F}.
Local Open Scope flt_scope.

Definition unix_to_mjd (t : F) : F :=
  t / lit 86400 0 + lit 24405875 (-1) - lit 24000005 (-1).

End Mjd.

(** *** [z_uncompress_gz]

    How a call ends: it returns, an [assert] fails, or a read leaves the
    buffer. *)
Inductive outcome (A : Type) : Type :=
| Returned (a : A)
| AssertionFailed
| OutOfBounds.
Arguments AssertionFailed {A}.
Arguments OutOfBounds {A}.

Definition bind {A B : Type} (m : outcome A) (k : A -> outcome B) : outcome B :=
  match m with
  | Returned a => k a
  | AssertionFailed => AssertionFailed
  | OutOfBounds => OutOfBounds
  end.

Notation "m ;; k" := (bind m (fun _ => k))
  (at level 61, right associativity).
Notation "x <- m ;; k" := (bind m (fun x => k))
  (at level 61, m at next level, right associativity).

Definition assert (c : bool) : outcome unit :=
  if c then Returned tt else AssertionFailed.

(** [strlen] at offset [d] of a buffer: the scan leaves the buffer when no
    NUL follows. *)
Definition strlen_at (src : list byte) (d : nat) : outcome nat :=
  if existsb is_nul (skipn d src) then Returned (strlen (skipn d src))
  else OutOfBounds.

(** The [uint32_t] read at [p] on a little-endian machine, and its
    conversion to [int]. *)
Definition uint32_at (p : list byte) : Z :=
  char_code (nth 0 p x00) + 256 * char_code (nth 1 p x00)
  + 65536 * char_code (nth 2 p x00) + 16777216 * char_code (nth 3 p x00).

Definition to_int (u : Z) : Z :=
  if (u <? 2147483648)%Z then u else u - 4294967296.

(** [stbi_zlib_decode_noheader_buffer] belongs to stb_image, which is not
    among the sources: the call is represented by what it is given.  [ret] is
    the output buffer of that call, of [isize + 1] bytes, with a NUL written
    at offset [isize]. *)
Record gz_call : Type := {
  out_size : Z;
  (** [olen], the size of the output buffer given to the decoder *)
  decode_olen : Z;
  (** the offset [d - src] of the compressed data, and the bytes from there
      to the end of the buffer *)
  decode_offset : nat;
  decode_input : list byte;
  (** [ilen] *)
  decode_ilen : Z
}.

(** [src_size] is the number of bytes of [src]; [d] is an offset in it. *)
Definition z_uncompress_gz (src : list byte) : outcome gz_call :=
  let src_size := Z.of_nat (length src) in
  let d := O in
  assert (10 <=? src_size)%Z ;;
  assert (Strings.Byte.eqb (nth d src x00) x1f) ;; let d := S d in
  assert (Strings.Byte.eqb (nth d src x00) x8b) ;; let d := S d in
  assert (Strings.Byte.eqb (nth d src x00) x08) ;; let d := S d in
  assert (Strings.Byte.eqb (nth d src x00) x08) ;; let d := S d in
  let d := (d + 6)%nat in
  n <- strlen_at src d ;;
  let d := (d + (n + 1))%nat in
  let footer := firstn 8 (skipn (Z.to_nat (src_size - 8)) src) in
  let isize := to_int (uint32_at (skipn 4 footer)) in
  Returned {| out_size := isize;
              decode_olen := isize;
              decode_offset := d;
              decode_input := skipn d src;
              decode_ilen := src_size - 8 - Z.of_nat d |}.

(** A gzip member as RFC 1952 lays it out when only the FNAME flag is set:
    the little-endian encoding of a 32 bit number, and the member with the
    given name, deflate stream and CRC. *)
Definition le32 (n : Z) : list byte :=
  [char_of n; char_of (n / 256); char_of (n / 65536); char_of (n / 16777216)].

Definition gz_member (mtime_xfl_os name deflated crc : list byte) (isize : Z)
  : list byte :=
  [x1f; x8b; x08; x08] ++ mtime_xfl_os ++ name ++ [x00]
  ++ deflated ++ crc ++ le32 isize.

End SweUtils.

(** ** The strokes of [src/modules/pointer.c] *)

Module Pointer.

Import ListNotations.

Section Render.

Context {F : Type} `{FloatArith F}.
Local Open Scope flt_scope.

(** Animation period. *)
Definition T : F := lit 20 (-1).
Definition M_PI : F := lit 314159265358979323846 (-20).

(** What [paint_2d_line] is called with: the line from (0, 0) to (1, 0)
    under the transformation made of the translation to [win_pos], the
    rotation by [i * 90] degrees, the translation by [(r, 0)] and the scaling
    by 8; [lines_width] is the width set in the painter. *)
Record stroke : Type := {
  center : F * F;
  quarter : Z;
  radius : F;
  stroke_length : Z;
  lines_width : Z
}.

(** What is painted: the pointer of the selection's own class, when it has a
    [render_pointer] method, or a line. *)
Inductive painted : Type :=
| RenderPointer
| Line (s : stroke).

(** One turn of the loop body: the radius it leaves in [r] and the line it
    paints; [t] is what [sys_get_unix_time] returns in that turn. *)
Definition next_radius (r t : F) : F :=
  let r := max r (of_int 8) in
  r + lit 4 (-1) * (sinf (t / T * of_int 2 * M_PI) + lit 11 (-1)).

Fixpoint strokes (win_pos : F * F) (clock : nat -> F) (i n : nat) (r : F)
  : list stroke :=
  match n with
  | O => []
  | S n' =>
      let r := next_radius r (clock i) in
      {| center := win_pos; quarter := Z.of_nat i; radius := r;
         stroke_length := 8; lines_width := 3 |}
      :: strokes win_pos clock (S i) n' r
  end.

(** [core->selection], [None] when nothing is selected: whether its class
    has a [render_pointer] method, and the window position and size
    [obj_get_2d_ellipse] returns for it. *)
Record selected : Type := {
  render_pointer : bool;
  win_pos : F * F;
  win_size : F * F
}.

(** [clock i] is the time read in turn [i] of the loop.  The result is the
    returned value and what is painted, in order. *)
Definition pointer_render (selection : option selected) (clock : nat -> F)
  : Z * list painted :=
  match selection with
  | None => (0%Z, [])
  | Some selection =>
      let custom := if render_pointer selection then [RenderPointer] else [] in
      let r := max (fst (win_size selection)) (snd (win_size selection)) in
      let r := r + of_int 5 in
      (0%Z, custom ++ map Line (strokes (win_pos selection) clock 0 4 r))
  end.

End Render.

Arguments stroke : clear implicits.
Arguments painted : clear implicits.
Arguments selected : clear implicits.

End Pointer.

(** * Properties *)

Import Exact Checked Parts Examples.

(** ** The comparisons of the three arithmetics *)

Lemma Rltb_true (x y : R) : Rltb x y = true <-> (x < y)%R.
Proof. unfold Rltb; destruct (Rlt_dec x y); split; intros; auto; discriminate. Qed.

Lemma Rltb_false (x y : R) : Rltb x y = false <-> (y <= x)%R.
Proof.
  unfold Rltb; destruct (Rlt_dec x y); split; intros; auto;
    try discriminate; lra.
Qed.

Lemma Rleb_true (x y : R) : Rleb x y = true <-> (x <= y)%R.
Proof. unfold Rleb; destruct (Rle_dec x y); split; intros; auto; discriminate. Qed.

Lemma Rleb_false (x y : R) : Rleb x y = false <-> (y < x)%R.
Proof.
  unfold Rleb; destruct (Rle_dec x y); split; intros; auto;
    try discriminate; lra.
Qed.

#[export] Instance ROrder : FloatOrder R.
Proof.
  split; cbn; intros.
  - apply Rltb_false; lra.
  - apply Rltb_true in H; apply Rltb_false; lra.
  - apply Rltb_true in H; apply Rleb_false; lra.
Qed.

#[export] Instance XOrder : FloatOrder xreal.
Proof.
  split; cbn.
  - intros [x|]; cbn; [apply Rltb_false; lra | reflexivity].
  - intros [x|] [y|]; cbn; try reflexivity; intros H.
    apply Rltb_true in H; apply Rltb_false; lra.
  - intros [x|] [y|]; cbn; try reflexivity; intros H.
    apply Rltb_true in H; apply Rleb_false; lra.
Qed.

(** [SFcompare] is antisymmetric, NaN included. *)
Lemma SFcompare_antisym (x y : spec_float) :
  SFcompare y x = option_map CompOpp (SFcompare x y).
Proof.
  destruct x as [sx|sx| |sx mx ex], y as [sy|sy| |sy my ey]; cbn;
    try reflexivity;
    try (destruct sx; reflexivity); try (destruct sy; reflexivity);
    try (destruct sx, sy; reflexivity).
  destruct sx, sy; cbn; try reflexivity;
    rewrite (Z.compare_antisym ex ey);
    destruct (ex ?= ey)%Z; cbn; try reflexivity;
    rewrite (Pos.compare_cont_antisym mx my Eq); cbn;
    destruct (Pos.compare_cont Eq mx my); reflexivity.
Qed.

Lemma SFltb_asym (x y : spec_float) : SFltb x y = true -> SFcompare y x = Some Gt.
Proof.
  unfold SFltb; rewrite (SFcompare_antisym x y).
  destruct (SFcompare x y) as [[ | | ]|]; cbn; intros; try discriminate; reflexivity.
Qed.

Lemma B32Order (lm : Binary32.libm) : @FloatOrder Binary32.float (Binary32.B32Arith lm).
Proof.
  split; cbn.
  - intros x; unfold SFltb.
    generalize (SFcompare_antisym x x).
    destruct (SFcompare x x) as [[ | | ]|]; cbn; intros; try discriminate; reflexivity.
  - intros x y Hlt; unfold SFltb; rewrite (SFltb_asym _ _ Hlt); reflexivity.
  - intros x y Hlt; unfold SFleb; rewrite (SFltb_asym _ _ Hlt); reflexivity.
Qed.

(** ** What follows from the control flow alone, in every arithmetic *)

Section ControlFlow.

Context {F : Type} `{FloatOrder F}.
Local Open Scope flt_scope.

Lemma max_below (a b : F) : (a <? b) = true -> max a b = b.
Proof. intros Hlt; unfold max; rewrite (ltb_asym _ _ Hlt); reflexivity. Qed.

Lemma max_same (a : F) : max a a = a.
Proof. unfold max; rewrite ltb_irrefl; reflexivity. Qed.

Lemma angular_dist_below (d one : F) :
  one * DR = lit 1 0 -> (d * DR <? lit 1 0) = true ->
  angular_dist d = angular_dist one.
Proof.
  intros Hone Hd; unfold angular_dist.
  rewrite (max_below _ _ Hd), Hone, max_same; reflexivity.
Qed.

Lemma add_moon_at_80 (BM B : F) : add_moon (lit 80 0) BM B = B.
Proof. unfold add_moon; rewrite ltb_irrefl; reflexivity. Qed.

Lemma add_moon_below_80 (ZM BM B : F) :
  (ZM <? lit 80 0) = true -> add_moon ZM BM B = B + BM.
Proof.
  intros Hlt; unfold add_moon; rewrite Hlt, (ltb_asym _ _ Hlt); reflexivity.
Qed.

Lemma add_moon_blend (ZM BM B : F) :
  (ZM >? lit 80 0) = true -> (ZM <=? lit 90 0) = true ->
  add_moon ZM BM B = B + BM * (lit 90 0 - ZM) / lit 10 0.
Proof.
  intros Hgt Hle; unfold add_moon; rewrite (ltb_asym _ _ Hgt), Hgt, Hle; reflexivity.
Qed.

Lemma add_moon_above_90 (ZM BM B : F) :
  (ZM <? lit 80 0) = false -> (ZM >? lit 90 0) = true -> add_moon ZM BM B = B.
Proof.
  intros Hge Hgt; unfold add_moon.
  rewrite Hge, (ltb_not_leb _ _ Hgt), andb_false_r; reflexivity.
Qed.

End ControlFlow.

(** ** Exact arithmetic: reading the code as real expressions *)

Local Open Scope R_scope.

Ltac r_ops :=
  cbn [lit of_int add sub mul div ltb leb expf logf cosf sinf sqrtf fabsf powf
       RArith].

(** Literals, as quotients of integers. *)
Ltac r_lits :=
  repeat match goal with
  | |- context [Rlit ?m (Zneg ?p)] =>
      let d := eval vm_compute in (Z.pow_pos 10 p) in
      change (Rlit m (Zneg p)) with (IZR m / IZR d)
  | |- context [Rlit ?m (Zpos ?p)] =>
      let d := eval vm_compute in (m * Z.pow_pos 10 p)%Z in
      change (Rlit m (Zpos p)) with (IZR d)
  | |- context [Rlit ?m Z0] => change (Rlit m Z0) with (IZR m)
  end.

Ltac r_code := r_ops; r_lits.

(** A product of non-negative factors. *)
Ltac prod_nonneg :=
  repeat match goal with
  | |- 0 <= _ * _ => apply Rmult_le_pos
  end.

Lemma RD_R : RD = 314159 / 100000 / 180.
Proof. unfold RD; r_code; reflexivity. Qed.

Lemma DR_R : DR = 180 / (314159 / 100000).
Proof. unfold DR; r_code; reflexivity. Qed.

Lemma DR_RD (x : R) : x * DR * RD = x.
Proof. rewrite DR_R, RD_R; field. Qed.

Lemma RD_DR (x : R) : x * RD * DR = x.
Proof. rewrite DR_R, RD_R; field. Qed.

Lemma DR_pos : 0 < DR.
Proof. rewrite DR_R; apply Rdiv_lt_0_compat; lra. Qed.

(** *** The constant 3.14159 is below pi *)

Lemma fact_IZR (n : nat) : INR (fact n) = IZR (zfact n).
Proof.
  induction n as [|n IH].
  - reflexivity.
  - change (fact (S n)) with (S n * fact n)%nat.
    rewrite mult_INR, IH, INR_IZR_INZ, <- mult_IZR; reflexivity.
Qed.

Lemma cos_90_RD_pos : 0 < cos (314159 / 200000).
Proof.
  destruct (pre_cos_bound (314159 / 200000) 3) as [low _]; [lra | lra | ].
  apply Rlt_le_trans with (2 := low); clear low.
  unfold cos_approx; cbv [sum_f_R0 Nat.mul Nat.add]; unfold cos_term.
  rewrite !fact_IZR.
  repeat match goal with
  | |- context [zfact ?n] =>
      let v := eval vm_compute in (zfact n) in change (zfact n) with v
  | |- context [Nat.mul ?a ?b] =>
      let v := eval vm_compute in (Nat.mul a b) in change (Nat.mul a b) with v
  end.
  lra.
Qed.

Lemma PI_lower : 314159 / 100000 < PI.
Proof.
  assert (Hlow : 314159 / 200000 < PI / 2); [| lra].
  apply PI2_lower_bound; [lra | apply cos_90_RD_pos].
Qed.

(** A zenith distance of at most 90 of the code's degrees is short of a right
    angle. *)
Lemma below_right_angle (z : R) : 0 <= z <= 90 -> 0 <= z * RD < PI / 2.
Proof. intros Hz; rewrite RD_R; pose proof PI_lower; lra. Qed.

Lemma cos_pos_below_90 (z : R) : 0 <= z <= 90 -> 0 < cos (z * RD).
Proof.
  intros Hz; destruct (below_right_angle Hz).
  apply cos_gt_0; lra.
Qed.

(** *** The air mass formula *)

Lemma airmass_R (z : R) : airmass z = 1 / airmass_den (cos (z * RD)).
Proof. unfold airmass, airmass_den; r_code; reflexivity. Qed.

Lemma exp_diff_le (a b : R) : a <= b -> b <= 0 -> exp b - exp a <= b - a.
Proof.
  intros Hab Hb.
  assert (H1 : 1 + (a - b) <= exp (a - b)) by apply exp_ineq1_le.
  assert (H2 : exp a = exp b * exp (a - b)).
  { rewrite <- exp_plus; f_equal; ring. }
  assert (H3 : 0 < exp b <= 1).
  { split; [apply exp_pos|]. rewrite <- exp_0.
    destruct Hb as [Hb| ->]; [left; apply exp_increasing; exact Hb | right; reflexivity]. }
  rewrite H2. nra.
Qed.

Lemma airmass_den_incr (c1 c2 : R) :
  0 <= c1 -> c1 <= c2 -> airmass_den c1 <= airmass_den c2.
Proof.
  intros H0 H12; unfold airmass_den.
  assert (H : exp (-11 * c1) - exp (-11 * c2) <= -11 * c1 - -11 * c2)
    by (apply exp_diff_le; lra).
  lra.
Qed.

Lemma airmass_den_low (c : R) : 0 <= c -> 25 / 1000 + 725 / 1000 * c <= airmass_den c.
Proof.
  intros Hc; unfold airmass_den.
  pose proof (exp_ineq1_le (-11 * c)); lra.
Qed.

Lemma airmass_den_pos (c : R) : 0 <= c -> 0 < airmass_den c.
Proof. intros Hc; pose proof (airmass_den_low Hc); lra. Qed.

Lemma airmass_incr (z1 z2 : R) :
  0 <= z1 -> z1 <= z2 -> z2 <= 90 -> airmass z1 <= airmass z2.
Proof.
  intros H0 H12 H90; rewrite !airmass_R.
  assert (Hc2 : 0 < cos (z2 * RD)) by (apply cos_pos_below_90; lra).
  assert (Hc : cos (z2 * RD) <= cos (z1 * RD)).
  { destruct (@below_right_angle z1) as [? ?]; [lra|].
    destruct (@below_right_angle z2) as [? ?]; [lra|].
    apply cos_decr_1; try lra.
    rewrite RD_R in *; lra. }
  assert (Hd : airmass_den (cos (z2 * RD)) <= airmass_den (cos (z1 * RD))).
  { apply airmass_den_incr; lra. }
  assert (Hp : 0 < airmass_den (cos (z2 * RD))) by (apply airmass_den_pos; lra).
  unfold Rdiv; rewrite !Rmult_1_l.
  apply Rinv_le_contravar; assumption.
Qed.

Lemma airmass_below_40 (z : R) : 0 <= z <= 90 -> 0 < airmass z < 40.
Proof.
  intros Hz; rewrite airmass_R.
  pose proof (cos_pos_below_90 Hz) as Hc.
  assert (Hlow := @airmass_den_low (cos (z * RD))).
  assert (Hd : 25 / 1000 < airmass_den (cos (z * RD))) by lra.
  split.
  - apply Rdiv_lt_0_compat; lra.
  - apply Rmult_lt_reg_r with (airmass_den (cos (z * RD))); [lra|].
    unfold Rdiv; rewrite Rmult_assoc, Rinv_l; lra.
Qed.

(** *** The composite extinction coefficient *)

Lemma Rpowf_pos (x y : R) : 0 < x -> Rpowf x y = Rpower x y.
Proof.
  intros Hx; unfold Rpowf, pow_spec.
  destruct (Rlt_dec 0 x); [reflexivity | contradiction].
Qed.

Lemma Rpowf_gt_0 (x y : R) : 0 < x -> 0 < Rpowf x y.
Proof. intros Hx; rewrite Rpowf_pos by assumption; apply exp_pos. Qed.

Lemma ln_neg (x : R) : 0 < x < 1 -> ln x < 0.
Proof. intros [H0 H1]; rewrite <- ln_1; apply ln_increasing; assumption. Qed.

(** The base of the humidity power of line 86 exceeds 1 when the relative
    humidity is strictly between 0 and 100. *)
Lemma humidity_base (rh : R) :
  0 < rh < 100 -> ln (rh / 100) < 0 /\ 1 < 1 - 32 / 100 / ln (rh / 100).
Proof.
  intros Hrh.
  assert (Hl : ln (rh / 100) < 0) by (apply ln_neg; lra).
  split; [exact Hl|].
  assert (Hi : / ln (rh / 100) < 0) by (apply Rinv_lt_0_compat; exact Hl).
  unfold Rdiv at 1; nra.
Qed.

Lemma extinction_R (month : Z) (la al te rh : R) :
  extinction month la al te rh =
  rayleigh_water te rh * exp (-1 * al / 8200)
  + aerosol month la rh * exp (-1 * al / 1500)
  + ozone month la.
Proof.
  unfold extinction, WA, OZ, WT, rayleigh_water, aerosol, ozone; r_code; ring.
Qed.

Lemma rayleigh_water_pos (te rh : R) : 0 < rh -> 0 < rayleigh_water te rh.
Proof.
  intros Hrh; unfold rayleigh_water.
  assert (H1 : 0 < Rpowf (55 / 100 / (55 / 100)) (-4)) by (apply Rpowf_gt_0; lra).
  assert (H2 : 0 < rh / 100 * exp (te / 15)).
  { apply Rmult_lt_0_compat; [lra | apply exp_pos]. }
  nra.
Qed.

Lemma aerosol_pos (month : Z) (la rh : R) : 0 < rh < 100 -> 0 < aerosol month la rh.
Proof.
  intros Hrh; unfold aerosol.
  destruct (humidity_base Hrh) as [_ Hb].
  assert (H1 : 0 < Rpowf (55 / 100 / (55 / 100)) (-13 / 10)) by (apply Rpowf_gt_0; lra).
  assert (H2 : 0 < Rpowf (1 - 32 / 100 / ln (rh / 100)) (133 / 100))
    by (apply Rpowf_gt_0; lra).
  pose proof (SIN_bound ((IZR month - 3) * 30 * RD)) as [Hs1 Hs2].
  repeat apply Rmult_lt_0_compat; try lra.
  destruct (Rltb 0 la); lra.
Qed.

Lemma ozone_pos (month : Z) (la : R) : -6 <= la * RD <= 6 -> 0 < ozone month la.
Proof.
  intros Hla; unfold ozone.
  pose proof (COS_bound ((IZR month - 3) * 30 * RD)) as [Hc1 Hc2].
  pose proof (COS_bound (3 * (la * RD))) as [Hd1 Hd2].
  set (l := la * RD) in *; set (c := cos _) in *.
  assert (-6 <= l * c) by nra.
  lra.
Qed.

Lemma extinction_decr (month : Z) (la te rh al1 al2 : R) :
  0 < rh < 100 -> al1 < al2 ->
  extinction month la al2 te rh < extinction month la al1 te rh.
Proof.
  intros Hrh Hal; rewrite !extinction_R.
  assert (Ha : 0 < rayleigh_water te rh) by (apply rayleigh_water_pos; lra).
  assert (Hb : 0 < aerosol month la rh) by (apply aerosol_pos; exact Hrh).
  assert (H1 : exp (-1 * al2 / 8200) < exp (-1 * al1 / 8200))
    by (apply exp_increasing; lra).
  assert (H2 : exp (-1 * al2 / 1500) < exp (-1 * al1 / 1500))
    by (apply exp_increasing; lra).
  nra.
Qed.

Lemma extinction_pos (month : Z) (la al te rh : R) :
  0 < rh < 100 -> -6 <= la * RD <= 6 -> 0 < extinction month la al te rh.
Proof.
  intros Hrh Hla; rewrite extinction_R.
  assert (Ha : 0 < rayleigh_water te rh) by (apply rayleigh_water_pos; lra).
  assert (Hb : 0 < aerosol month la rh) by (apply aerosol_pos; exact Hrh).
  pose proof (ozone_pos month Hla).
  pose proof (exp_pos (-1 * al / 8200)); pose proof (exp_pos (-1 * al / 1500)).
  nra.
Qed.

(** *** The exponentials *)

Lemma squarings_nonneg (n : nat) (x : R) : 0 <= x -> 0 <= squarings n x.
Proof.
  revert x; induction n as [|n IH]; intros x Hx; cbn [squarings]; [exact Hx|].
  apply IH; r_ops; nra.
Qed.

Lemma squarings_pos (n : nat) (x : R) : 0 < x -> 0 < squarings n x.
Proof.
  revert x; induction n as [|n IH]; intros x Hx; cbn [squarings]; [exact Hx|].
  apply IH; r_ops; nra.
Qed.

Lemma squarings_le_1 (n : nat) (x : R) : 0 <= x <= 1 -> squarings n x <= 1.
Proof.
  revert x; induction n as [|n IH]; intros x Hx; cbn [squarings]; [lra|].
  apply IH; r_ops; nra.
Qed.

Lemma squarings_le_exp (n : nat) (x s : R) :
  0 <= x <= exp s -> squarings n x <= exp (2 ^ n * s).
Proof.
  revert x s; induction n as [|n IH]; intros x s Hx; cbn [squarings].
  - rewrite pow_O, Rmult_1_l; lra.
  - replace (2 ^ S n * s) with (2 ^ n * (s + s)) by (simpl; ring).
    apply IH; r_ops; rewrite exp_plus.
    split; [nra | apply Rmult_le_compat; lra].
Qed.

(** [fast_expf x] is the square of the 512th power of [1 + x / 1024]. *)
Lemma fast_expf_step (x : R) :
  fast_expf x = squarings 9 ((1 + x / 1024) * (1 + x / 1024)).
Proof. unfold fast_expf; r_code; reflexivity. Qed.

Lemma fast_expf_nonneg (x : R) : 0 <= fast_expf x.
Proof.
  rewrite fast_expf_step; apply squarings_nonneg.
  set (y := 1 + x / 1024); nra.
Qed.

Lemma fast_expf_pos (x : R) : -1024 < x -> 0 < fast_expf x.
Proof.
  intros Hx; rewrite fast_expf_step; apply squarings_pos.
  assert (Hy : 0 < 1 + x / 1024) by lra.
  set (y := 1 + x / 1024) in *; nra.
Qed.

Lemma fast_expf_le_1 (x : R) : -2048 <= x <= 0 -> fast_expf x <= 1.
Proof.
  intros Hx; rewrite fast_expf_step; apply squarings_le_1.
  assert (Hy : -1 <= 1 + x / 1024 <= 1) by lra.
  set (y := 1 + x / 1024) in *; nra.
Qed.

Lemma fast_expf_le_exp (x : R) : -1024 <= x -> fast_expf x <= exp x.
Proof.
  intros Hx; unfold fast_expf; r_code.
  replace x with (2 ^ 10 * (x / 1024)) at 2 by (simpl; field).
  apply squarings_le_exp.
  pose proof (exp_ineq1_le (x / 1024)); lra.
Qed.

Lemma ln_10_low : 1 < ln 10.
Proof.
  rewrite <- (ln_exp 1); apply ln_increasing; [apply exp_pos|].
  pose proof exp_le_3; lra.
Qed.

Lemma ln_10_high : ln 10 < 32 / 10.
Proof.
  rewrite <- (ln_exp (32 / 10)); apply ln_increasing; [lra|].
  replace (32 / 10) with (8 / 10 + 8 / 10 + (8 / 10 + 8 / 10)) by field.
  rewrite !exp_plus.
  pose proof (exp_ineq1_le (8 / 10)) as He.
  set (e := exp (8 / 10)) in *.
  assert (H2 : 324 / 100 <= e * e) by nra.
  nra.
Qed.

Lemma exp10f_R (x : R) : exp10f x = exp (x * ln 10).
Proof. unfold exp10f; r_code; reflexivity. Qed.

Lemma fast_exp10f_R (x : R) : fast_exp10f x = fast_expf (x * ln 10).
Proof. unfold fast_exp10f; r_code; reflexivity. Qed.

Lemma exp10f_pos (x : R) : 0 < exp10f x.
Proof. rewrite exp10f_R; apply exp_pos. Qed.

Lemma exp10f_lt_1 (x : R) : x < 0 -> exp10f x < 1.
Proof.
  intros Hx; rewrite exp10f_R, <- exp_0; apply exp_increasing.
  pose proof ln_10_low; nra.
Qed.

Lemma exp10f_ge_1 (x : R) : 0 <= x -> 1 <= exp10f x.
Proof.
  intros Hx; rewrite exp10f_R.
  pose proof ln_10_low; pose proof (exp_ineq1_le (x * ln 10)); nra.
Qed.

Lemma fast_exp10f_nonneg (x : R) : 0 <= fast_exp10f x.
Proof. rewrite fast_exp10f_R; apply fast_expf_nonneg. Qed.

(** The fast exponential stays below 1 on the extinction exponents
    [-0.4 * k * x] of the code, as long as [k * x] is at most 1600. *)
Lemma fast_exp10f_unit (k x : R) :
  0 <= k * x <= 1600 -> 0 <= fast_exp10f (-4 / 10 * k * x) <= 1.
Proof.
  intros Hkx; split; [apply fast_exp10f_nonneg|].
  rewrite fast_exp10f_R; apply fast_expf_le_1.
  pose proof ln_10_low; pose proof ln_10_high.
  replace (-4 / 10 * k * x * ln 10) with (- (4 / 10 * (k * x) * ln 10)) by field.
  assert (0 <= 4 / 10 * (k * x) * ln 10 <= 2048); [|lra].
  split; [nra|].
  apply Rle_trans with (4 / 10 * 1600 * ln 10); nra.
Qed.

(** *** The four brightness terms, in exact arithmetic *)

Lemma max_R (a b : R) : max a b = Rmax a b.
Proof.
  unfold max; r_ops.
  destruct (Rltb b a) eqn:Hc.
  - apply Rltb_true in Hc; rewrite Rmax_left; lra.
  - apply Rltb_false in Hc; rewrite Rmax_right; lra.
Qed.

Lemma angular_dist_R (d : R) : angular_dist d = Rmax (d * DR) 1.
Proof. unfold angular_dist; rewrite max_R; r_code; reflexivity. Qed.

Lemma angular_dist_ge_1 (d : R) : 1 <= angular_dist d.
Proof. rewrite angular_dist_R; apply Rmax_r. Qed.

Lemma target_airmass_R (zd : R) :
  target_airmass zd = 1 / (cos zd + 25 / 1000 * fast_expf (-11 * cos zd)).
Proof. unfold target_airmass; r_code; rewrite DR_RD; reflexivity. Qed.

Lemma target_airmass_pos (zd : R) : 0 <= zd <= PI / 2 -> 0 < target_airmass zd.
Proof.
  intros Hzd; rewrite target_airmass_R.
  assert (Hc : 0 <= cos zd) by (apply cos_ge_0; lra).
  pose proof (COS_bound zd) as [_ Hc1].
  assert (Hf : 0 < fast_expf (-11 * cos zd)) by (apply fast_expf_pos; lra).
  apply Rdiv_lt_0_compat; lra.
Qed.

Section Terms.

Variable sb : skybrightness_t R.
Variables moon_dist sun_dist zenith_dist : R.

Lemma dark_night_R :
  dark_night sb zenith_dist =
  BO * (1 + 3 / 10 * cos (6283 / 1000 * (IZR (Y sb) - 1992) / 11))
  * (4 / 10 + 6 / 10 / sqrt (1 - 96 / 100 * Rpowf (sin zenith_dist) 2))
  * fast_exp10f (-4 / 10 * K sb * target_airmass zenith_dist)
  * k_BN sb.
Proof. unfold dark_night; r_code; rewrite DR_RD; reflexivity. Qed.

Lemma moonlight_R :
  moonlight sb moon_dist zenith_dist =
  exp10f (-4 / 10 * (MM sb - MO + 4327 / 100)) * scattered sb zenith_dist
  * (FM moon_dist * C3 sb + 440000 * (1 - C3 sb)) * k_BM sb.
Proof. unfold moonlight, FM, scattered, C3, MM; r_code; reflexivity. Qed.

Lemma twilight_R :
  twilight sb sun_dist zenith_dist =
  exp10f (-4 / 10 * (MS - MO + 325 / 10 - (90 - ZS sb)
                     - zenith_dist * DR / (360 * K sb)))
  * (100 / angular_dist sun_dist) * scattered sb zenith_dist * k_BT sb.
Proof. unfold twilight, scattered; r_code; reflexivity. Qed.

Lemma daylight_R :
  daylight sb sun_dist zenith_dist =
  exp10f (-4 / 10 * (MS - MO + 4327 / 100)) * scattered sb zenith_dist
  * (FS sun_dist * C4 sb + 440000 * (1 - C4 sb)).
Proof. unfold daylight, FS, scattered, C4; r_code; reflexivity. Qed.

Lemma FM_pos : 0 < FM moon_dist.
Proof.
  unfold FM, pow2; r_ops.
  pose proof (angular_dist_ge_1 moon_dist) as Hr.
  set (r := angular_dist moon_dist) in *.
  assert (H1 : 0 < 62000000 / (r * r)) by (apply Rdiv_lt_0_compat; nra).
  pose proof (exp10f_pos (615 / 100 - r / 40)).
  pose proof (exp10f_pos (536 / 100)) as H3.
  set (c := cos (r * RD)).
  assert (H4 : 0 < exp10f (536 / 100) * (106 / 100 + c * c)) by (apply Rmult_lt_0_compat; nra).
  lra.
Qed.

Lemma FS_pos : 0 < FS sun_dist.
Proof.
  unfold FS, pow2; r_ops.
  pose proof (angular_dist_ge_1 sun_dist) as Hr.
  set (r := angular_dist sun_dist) in *.
  assert (H1 : 0 < 62000000 / (r * r)) by (apply Rdiv_lt_0_compat; nra).
  pose proof (fast_exp10f_nonneg (615 / 100 - r / 40)).
  pose proof (fast_exp10f_nonneg (536 / 100)) as H3.
  set (c := cos (r * RD)).
  assert (H4 : 0 <= fast_exp10f (536 / 100) * (106 / 100 + c * c)) by (apply Rmult_le_pos; nra).
  lra.
Qed.

Lemma Rpowf_2 (x : R) : pow_spec x 2 = Some (x * x).
Proof.
  unfold pow_spec.
  destruct (Rlt_dec 0 x) as [Hx|Hx].
  - f_equal. replace 2 with (INR 2) by (simpl; lra).
    rewrite Rpower_pow by exact Hx. simpl; ring.
  - assert (Hi : int_of 2 = Some 2%Z).
    { unfold int_of.
      assert (Int_part 2 = 2%Z) as ->.
      { symmetry; apply Int_part_spec; lra. }
      destruct (Req_dec_T 2 2); [reflexivity | contradiction]. }
    rewrite Hi; cbn [Z.ltb Z.compare].
    destruct (Req_dec_T x 0); f_equal; simpl; ring.
Qed.

Lemma dark_night_nonneg : 0 <= k_BN sb -> 0 <= dark_night sb zenith_dist.
Proof.
  intros Hk; rewrite dark_night_R.
  unfold Rpowf; rewrite Rpowf_2.
  pose proof (COS_bound (6283 / 1000 * (IZR (Y sb) - 1992) / 11)) as [Hc _].
  pose proof (SIN_bound zenith_dist) as [Hs1 Hs2].
  set (s := sin zenith_dist) in *.
  assert (Hq : 0 < sqrt (1 - 96 / 100 * (s * s))) by (apply sqrt_lt_R0; nra).
  assert (Hd : 0 < 6 / 10 / sqrt (1 - 96 / 100 * (s * s)))
    by (apply Rdiv_lt_0_compat; lra).
  assert (HBO : 0 < BO) by (unfold BO; r_code; lra).
  pose proof (fast_exp10f_nonneg (-4 / 10 * K sb * target_airmass zenith_dist)).
  prod_nonneg; lra.
Qed.

Hypothesis K_pos : 0 < K sb.
Hypothesis X_pos : 0 < target_airmass zenith_dist.

Lemma scattered_pos : 0 < scattered sb zenith_dist.
Proof.
  unfold scattered.
  assert (H : exp10f (-4 / 10 * K sb * target_airmass zenith_dist) < 1).
  { apply exp10f_lt_1. nra. }
  lra.
Qed.

Lemma twilight_nonneg : 0 <= k_BT sb -> 0 <= twilight sb sun_dist zenith_dist.
Proof.
  intros Hk; rewrite twilight_R.
  pose proof (angular_dist_ge_1 sun_dist) as Hr.
  assert (0 < 100 / angular_dist sun_dist) by (apply Rdiv_lt_0_compat; lra).
  pose proof scattered_pos.
  pose proof (exp10f_pos (-4 / 10 * (MS - MO + 325 / 10 - (90 - ZS sb)
                                     - zenith_dist * DR / (360 * K sb)))).
  prod_nonneg; lra.
Qed.

Lemma blend_nonneg (F C : R) : 0 < F -> 0 <= C <= 1 -> 0 <= F * C + 440000 * (1 - C).
Proof. intros HF HC; nra. Qed.

Lemma moonlight_nonneg :
  0 <= k_BM sb -> 0 <= K sb * XM sb <= 1600 ->
  0 <= moonlight sb moon_dist zenith_dist.
Proof.
  intros Hk Hx; rewrite moonlight_R.
  pose proof scattered_pos.
  pose proof (blend_nonneg FM_pos (fast_exp10f_unit Hx)).
  pose proof (exp10f_pos (-4 / 10 * (MM sb - MO + 4327 / 100))).
  prod_nonneg; solve [lra | assumption].
Qed.

Lemma daylight_nonneg :
  0 <= K sb * XS sb <= 1600 -> 0 <= daylight sb sun_dist zenith_dist.
Proof.
  intros Hx; rewrite daylight_R.
  pose proof scattered_pos.
  pose proof (blend_nonneg FS_pos (fast_exp10f_unit Hx)).
  pose proof (exp10f_pos (-4 / 10 * (MS - MO + 4327 / 100))).
  prod_nonneg; solve [lra | assumption].
Qed.

End Terms.

(** *** The total *)

Lemma night_and_sun_R (BN BT BD : R) : night_and_sun BN BT BD = BN + Rmin BT BD.
Proof.
  unfold night_and_sun; r_ops.
  destruct (Rltb BT BD) eqn:Hc.
  - apply Rltb_true in Hc; rewrite Rmin_left; lra.
  - apply Rltb_false in Hc; rewrite Rmin_right; lra.
Qed.

Lemma add_moon_R (zm BM B : R) : add_moon zm BM B = B + BM * moon_weight zm.
Proof.
  unfold add_moon, moon_weight; r_code.
  destruct (Rltb zm 80) eqn:H1.
  - apply Rltb_true in H1.
    assert (H2 : Rltb 80 zm = false) by (apply Rltb_false; lra).
    rewrite H2; cbn [andb]; ring.
  - destruct (Rltb 80 zm && Rleb zm 90); field.
Qed.

Lemma moon_weight_unit (zm : R) : 0 <= moon_weight zm <= 1.
Proof.
  unfold moon_weight.
  destruct (Rltb zm 80) eqn:H1; [lra|].
  destruct (Rltb 80 zm) eqn:H2; cbn [andb]; [|lra].
  destruct (Rleb zm 90) eqn:H3; [|lra].
  apply Rltb_true in H2; apply Rleb_true in H3; lra.
Qed.

Lemma luminance_R (sb : skybrightness_t R) (md sd zd : R) :
  skybrightness_get_luminance sb md sd zd =
  (dark_night sb zd + Rmin (twilight sb sd zd) (daylight sb sd zd)
   + moonlight sb md zd * moon_weight (ZM sb))
  / (111 / 100000000000000000) * (3183 / 1000000000).
Proof.
  unfold skybrightness_get_luminance, sky_brightness, total_brightness,
    NLAMBERT_TO_CDM2.
  rewrite add_moon_R, night_and_sun_R; r_code; reflexivity.
Qed.

Lemma luminance_nonneg (sb : skybrightness_t R) (md sd zd : R) :
  0 < K sb -> 0 < target_airmass zd ->
  0 <= K sb * XM sb <= 1600 -> 0 <= K sb * XS sb <= 1600 ->
  0 <= k_BT sb -> 0 <= k_BM sb -> 0 <= k_BN sb ->
  0 <= skybrightness_get_luminance sb md sd zd.
Proof.
  intros HK HX HM HS Ht Hm Hn; rewrite luminance_R.
  pose proof (@dark_night_nonneg sb zd Hn).
  pose proof (@twilight_nonneg sb sd zd HK HX Ht).
  pose proof (@daylight_nonneg sb sd zd HK HX HS).
  pose proof (@moonlight_nonneg sb md zd HK HX Hm HM).
  pose proof (moon_weight_unit (ZM sb)).
  assert (0 <= Rmin (twilight sb sd zd) (daylight sb sd zd)) by (apply Rmin_glb; assumption).
  assert (0 <= moonlight sb md zd * moon_weight (ZM sb)) by (apply Rmult_le_pos; lra).
  apply Rmult_le_pos; [|lra].
  apply Rmult_le_pos; [lra|].
  left; apply Rinv_0_lt_compat; lra.
Qed.

(** ** Exact arithmetic with domain errors: when the code is defined *)

Lemma Xdiv_fin (a b : R) : b <> 0 -> Xdiv (Fin a) (Fin b) = Fin (a / b).
Proof. intros Hb; cbn; destruct (Req_dec_T b 0); [contradiction | reflexivity]. Qed.

Lemma Xdiv_zero (a : R) : Xdiv (Fin a) (Fin 0) = Undef.
Proof. cbn; destruct (Req_dec_T 0 0); [reflexivity | contradiction]. Qed.

Lemma Xlog_fin (a : R) : 0 < a -> Xlog (Fin a) = Fin (ln a).
Proof. intros Ha; cbn; destruct (Rlt_dec 0 a); [reflexivity | contradiction]. Qed.

Lemma Xsqrt_fin (a : R) : 0 <= a -> Xsqrt (Fin a) = Fin (sqrt a).
Proof. intros Ha; cbn; destruct (Rle_dec 0 a); [reflexivity | contradiction]. Qed.

Lemma pow_spec_pos (a b : R) : 0 < a -> pow_spec a b = Some (Rpower a b).
Proof. intros Ha; unfold pow_spec; destruct (Rlt_dec 0 a); [reflexivity | contradiction]. Qed.

Lemma Xpow_fin (a b r : R) : pow_spec a b = Some r -> Xpow (Fin a) (Fin b) = Fin (Rpowf a b).
Proof. intros Hp; unfold Xpow, Rpowf; rewrite Hp; reflexivity. Qed.

Lemma Xpow_pos (a b : R) : 0 < a -> Xpow (Fin a) (Fin b) = Fin (Rpowf a b).
Proof. intros Ha; apply Xpow_fin with (Rpower a b), pow_spec_pos, Ha. Qed.

Lemma Xpow_2 (a : R) : Xpow (Fin a) (Fin 2) = Fin (Rpowf a 2).
Proof. apply Xpow_fin with (a * a), Rpowf_2. Qed.

Ltac x_ops :=
  cbn [lit of_int add sub mul div ltb leb expf logf cosf sinf sqrtf fabsf powf
       XArith RArith lift1 lift2 Xcmp
       Y M AM LA AL TE RH ZM ZS k_BT k_BM k_BN K XM XS fin_session].

(** Divisions by a literal, or by a number known to be non-zero. *)
Ltac x_div :=
  repeat (rewrite Xdiv_fin by solve [r_lits; lra | assumption]; x_ops).

Lemma squarings_fin (n : nat) (x : R) : squarings n (Fin x) = Fin (squarings n x).
Proof. revert x; induction n as [|n IH]; intros x; cbn [squarings]; [reflexivity | apply IH]. Qed.

Lemma fast_expf_fin (x : R) : fast_expf (Fin x) = Fin (fast_expf x).
Proof. unfold fast_expf; x_ops; x_div; apply squarings_fin. Qed.

Lemma Xlog_10 : Xlog (Fin (Rlit 10 0)) = Fin (ln (Rlit 10 0)).
Proof. apply Xlog_fin; r_lits; lra. Qed.

Lemma exp10f_fin (x : R) : exp10f (Fin x) = Fin (exp10f x).
Proof. unfold exp10f; x_ops; rewrite Xlog_10; reflexivity. Qed.

Lemma fast_exp10f_fin (x : R) : fast_exp10f (Fin x) = Fin (fast_exp10f x).
Proof. unfold fast_exp10f; x_ops; rewrite Xlog_10; x_ops; apply fast_expf_fin. Qed.

Lemma DR_fin : DR = Fin DR.
Proof. unfold DR; x_ops; x_div; reflexivity. Qed.

Lemma RD_fin : RD = Fin RD.
Proof. unfold RD; x_ops; x_div; reflexivity. Qed.

Lemma max_fin (a b : R) : max (Fin a) (Fin b) = Fin (max a b).
Proof. unfold max; x_ops; destruct (Rltb b a); reflexivity. Qed.

Lemma angular_dist_fin (d : R) : angular_dist (Fin d) = Fin (angular_dist d).
Proof. unfold angular_dist; rewrite DR_fin; x_ops; apply max_fin. Qed.

Lemma target_airmass_fin (zd : R) :
  cos zd + 25 / 1000 * fast_expf (-11 * cos zd) <> 0 ->
  target_airmass (Fin zd) = Fin (target_airmass zd).
Proof.
  intros Hden; unfold target_airmass.
  rewrite DR_fin, RD_fin; x_ops; rewrite !fast_expf_fin; x_ops.
  apply Xdiv_fin. rewrite DR_RD; r_lits; exact Hden.
Qed.

Lemma airmass_fin (z : R) :
  airmass_den (cos (z * RD)) <> 0 -> airmass (Fin z) = Fin (airmass z).
Proof.
  intros Hden; unfold airmass.
  rewrite RD_fin; x_ops. apply Xdiv_fin.
  unfold airmass_den in Hden; r_lits; exact Hden.
Qed.

Lemma extinction_fin (month : Z) (la al te rh : R) :
  0 < rh < 100 ->
  extinction month (Fin la) (Fin al) (Fin te) (Fin rh)
  = Fin (extinction month la al te rh).
Proof.
  intros Hrh; destruct (humidity_base Hrh) as [Hl Hb].
  unfold extinction, WA, OZ, WT; rewrite RD_fin; x_ops; x_div.
  rewrite !Xpow_pos by (r_lits; lra); x_ops.
  rewrite Xlog_fin by (r_lits; lra); x_ops.
  rewrite Xdiv_fin by (r_lits; lra); x_ops.
  rewrite Xpow_pos by (r_lits; lra); x_ops.
  destruct (Rltb (Rlit 0 0) la); x_ops; x_div; reflexivity.
Qed.

Lemma clamp_fin (z : R) :
  0 <= z ->
  (if Rltb (Rlit 90 0) z then Fin (Rlit 40 0) else airmass (Fin z))
  = Fin (if Rltb (Rlit 90 0) z then Rlit 40 0 else airmass z).
Proof.
  intros Hz.
  destruct (Rltb (Rlit 90 0) z) eqn:Hc; [reflexivity|].
  apply Rltb_false in Hc; revert Hc; r_lits; intros Hc.
  apply airmass_fin.
  assert (H : 0 < airmass_den (cos (z * RD))); [|lra].
  apply airmass_den_pos; left; apply cos_pos_below_90; lra.
Qed.

(** With a relative humidity strictly between 0 and 100 and non-negative
    zenith distances of the Moon and of the Sun, no operation of
    [skybrightness_prepare] leaves its domain. *)
Lemma prepare_fin (year month : Z) (mp lat alt te rh dmz dsz kt km kn : R) :
  0 < rh < 100 -> 0 <= dmz -> 0 <= dsz ->
  skybrightness_prepare year month (Fin mp) (Fin lat) (Fin alt) (Fin te)
    (Fin rh) (Fin dmz) (Fin dsz) (Fin kt) (Fin km) (Fin kn)
  = fin_session
      (skybrightness_prepare year month mp lat alt te rh dmz dsz kt km kn).
Proof.
  intros Hrh Hm Hs; pose proof DR_pos.
  unfold skybrightness_prepare, fin_session; rewrite DR_fin; x_ops.
  rewrite extinction_fin by exact Hrh.
  rewrite !clamp_fin by (apply Rmult_le_pos; lra).
  reflexivity.
Qed.

Section Defined.

Variable sb : skybrightness_t R.
Variables md sd zd : R.

(** The denominator of line 130 is not zero. *)
Hypothesis X_defined : cos zd + 25 / 1000 * fast_expf (-11 * cos zd) <> 0.

Lemma dark_night_fin :
  dark_night (fin_session sb) (Fin zd) = Fin (dark_night sb zd).
Proof.
  unfold dark_night, BO; rewrite (@target_airmass_fin zd X_defined), DR_fin, RD_fin.
  x_ops; x_div.
  assert (H2 : Rlit 2 0 = 2) by reflexivity.
  rewrite H2, Xpow_2; x_ops.
  assert (Hs : 4 / 100 <= Rlit 1 0 - Rlit 96 (-2) * Rpowf (sin (zd * DR * RD)) 2).
  { unfold Rpowf; rewrite Rpowf_2; r_lits.
    pose proof (SIN_bound (zd * DR * RD)); nra. }
  rewrite Xsqrt_fin by lra; x_ops.
  rewrite Xdiv_fin by (apply Rgt_not_eq, sqrt_lt_R0; lra); x_ops.
  rewrite fast_exp10f_fin; x_ops.
  reflexivity.
Qed.

Lemma pow2_angular_dist (d : R) : pow2 (angular_dist d) <> 0.
Proof. pose proof (angular_dist_ge_1 d); unfold pow2; r_ops; nra. Qed.

Lemma moonlight_fin :
  moonlight (fin_session sb) (Fin md) (Fin zd) = Fin (moonlight sb md zd).
Proof.
  unfold moonlight, MO, CM.
  rewrite (@target_airmass_fin zd X_defined), angular_dist_fin, RD_fin.
  pose proof (pow2_angular_dist md) as Hp; unfold pow2 in *|-.
  unfold pow2, pow4; x_ops; rewrite !fast_exp10f_fin; x_ops; x_div.
  rewrite !exp10f_fin; x_ops.
  reflexivity.
Qed.

Lemma daylight_fin :
  daylight (fin_session sb) (Fin sd) (Fin zd) = Fin (daylight sb sd zd).
Proof.
  unfold daylight, MO, MS.
  rewrite (@target_airmass_fin zd X_defined), angular_dist_fin, RD_fin.
  pose proof (pow2_angular_dist sd) as Hp; unfold pow2 in *|-.
  unfold pow2; x_ops; rewrite !fast_exp10f_fin; x_ops; x_div.
  rewrite !fast_exp10f_fin; x_ops.
  rewrite !exp10f_fin; x_ops.
  reflexivity.
Qed.

Lemma twilight_fin :
  K sb <> 0 ->
  twilight (fin_session sb) (Fin sd) (Fin zd) = Fin (twilight sb sd zd).
Proof.
  intros HK; unfold twilight, MO, MS.
  rewrite (@target_airmass_fin zd X_defined), angular_dist_fin, DR_fin.
  pose proof (angular_dist_ge_1 sd) as Hr.
  x_ops.
  rewrite Xdiv_fin by (r_lits; nra); x_ops.
  rewrite Xdiv_fin by lra; x_ops.
  rewrite !exp10f_fin; x_ops.
  reflexivity.
Qed.

(** A division by zero at line 155 when the composite extinction is zero. *)
Lemma twilight_undefined :
  K sb = 0 -> twilight (fin_session sb) (Fin sd) (Fin zd) = Undef.
Proof.
  intros HK; unfold twilight, MO, MS.
  rewrite (@target_airmass_fin zd X_defined), angular_dist_fin, DR_fin.
  x_ops; rewrite HK.
  replace (Rlit 360 0 * 0) with 0 by ring.
  rewrite Xdiv_zero; reflexivity.
Qed.

Lemma night_and_sun_fin (BN BT BD : R) :
  night_and_sun (Fin BN) (Fin BT) (Fin BD) = Fin (night_and_sun BN BT BD).
Proof. unfold night_and_sun; x_ops; destruct (Rltb BT BD); reflexivity. Qed.

Lemma add_moon_fin (zm BM B : R) :
  add_moon (Fin zm) (Fin BM) (Fin B) = Fin (add_moon zm BM B).
Proof.
  unfold add_moon; x_ops.
  destruct (Rltb zm (Rlit 80 0)); x_ops;
    destruct (Rltb (Rlit 80 0) zm && Rleb zm (Rlit 90 0)); x_ops; x_div;
    reflexivity.
Qed.

Lemma luminance_fin :
  K sb <> 0 ->
  skybrightness_get_luminance (fin_session sb) (Fin md) (Fin sd) (Fin zd)
  = Fin (skybrightness_get_luminance sb md sd zd).
Proof.
  intros HK.
  unfold skybrightness_get_luminance, sky_brightness, total_brightness,
    NLAMBERT_TO_CDM2.
  rewrite dark_night_fin, moonlight_fin, daylight_fin, (twilight_fin HK).
  change (ZM (fin_session sb)) with (Fin (ZM sb)).
  rewrite night_and_sun_fin, add_moon_fin.
  x_ops; x_div; reflexivity.
Qed.

End Defined.

(** * The claims *)

(** ** Control flow: claims proved for every arithmetic *)

Section EveryArithmetic.

Context {F : Type} `{FloatArith F}.
Local Open Scope flt_scope.

(** C1 (as amended): before the conversion of units, the total brightness is
    the dark night term plus the SMALLER of the twilight and daylight terms,
    with the impact of the Moon on top: when the daylight term exceeds the
    twilight term it is the twilight term that is added, and otherwise the
    daylight term. *)
Theorem total_adds_smaller_of_twilight_daylight
    (sb : skybrightness_t F) (moon_dist sun_dist zenith_dist : F) :
  sky_brightness sb moon_dist sun_dist zenith_dist =
  add_moon (ZM sb) (moonlight sb moon_dist zenith_dist)
    (dark_night sb zenith_dist
     + (if daylight sb sun_dist zenith_dist >? twilight sb sun_dist zenith_dist
        then twilight sb sun_dist zenith_dist
        else daylight sb sun_dist zenith_dist)).
Proof.
  unfold sky_brightness, total_brightness, night_and_sun.
  destruct (daylight sb sun_dist zenith_dist >? twilight sb sun_dist zenith_dist);
    reflexivity.
Qed.

(** C3 (as amended): the stored air mass of the Moon is exactly 40 whenever
    the zenith distance of the Moon, in degrees, is strictly greater than 90,
    and likewise for the Sun. *)
Theorem airmass_40_above_90
    (year month : Z)
    (moon_phase latitude altitude temperature relative_humidity
     dist_moon_zenith dist_sun_zenith
     twilight_coef moon_brightness_coef darknight_brightness_coef : F) :
  let sb := skybrightness_prepare year month moon_phase latitude altitude
              temperature relative_humidity dist_moon_zenith dist_sun_zenith
              twilight_coef moon_brightness_coef darknight_brightness_coef in
  ((ZM sb >? lit 90 0) = true -> XM sb = lit 40 0) /\
  ((ZS sb >? lit 90 0) = true -> XS sb = lit 40 0).
Proof.
  cbn [skybrightness_prepare ZM ZS XM XS]; split; intros Hgt; rewrite Hgt;
    reflexivity.
Qed.

Context `{!FloatOrder F}.

(** C5: inside [skybrightness_get_luminance] the angular distances to the
    Moon and to the Sun are clamped to a minimum of 1 degree.  With [one] the
    radian value of 1 degree ([one * DR] is 1), a [moon_dist] whose degree
    value is below 1 gives exactly the luminance that [one] gives, and
    likewise for [sun_dist]. *)
Theorem angular_distances_clamped_to_1_degree
    (sb : skybrightness_t F) (moon_dist sun_dist zenith_dist one : F) :
  one * DR = lit 1 0 ->
  ((moon_dist * DR <? lit 1 0) = true ->
   skybrightness_get_luminance sb moon_dist sun_dist zenith_dist
   = skybrightness_get_luminance sb one sun_dist zenith_dist) /\
  ((sun_dist * DR <? lit 1 0) = true ->
   skybrightness_get_luminance sb moon_dist sun_dist zenith_dist
   = skybrightness_get_luminance sb moon_dist one zenith_dist).
Proof.
  intros Hone; split; intros Hlt;
    unfold skybrightness_get_luminance, sky_brightness, moonlight, twilight,
      daylight;
    rewrite (@angular_dist_below F _ _ _ one Hone Hlt); reflexivity.
Qed.

(** C10: when the zenith distance of the Moon stored in the session is
    exactly 80 degrees, neither the test of line 172 ([ZM < 80]) nor the
    first test of line 176 ([ZM > 80]) holds, and no moonlight is added: the
    brightness is that of the dark night sky and the Sun alone, and the
    luminance returned is its conversion. *)
Theorem no_moonlight_at_exactly_80
    (sb : skybrightness_t F) (moon_dist sun_dist zenith_dist : F) :
  ZM sb = lit 80 0 ->
  (ZM sb <? lit 80 0) = false
  /\ (ZM sb >? lit 80 0) = false
  /\ sky_brightness sb moon_dist sun_dist zenith_dist
     = night_and_sun (dark_night sb zenith_dist)
         (twilight sb sun_dist zenith_dist) (daylight sb sun_dist zenith_dist)
  /\ skybrightness_get_luminance sb moon_dist sun_dist zenith_dist
     = night_and_sun (dark_night sb zenith_dist)
         (twilight sb sun_dist zenith_dist) (daylight sb sun_dist zenith_dist)
       / lit 111 (-17) * NLAMBERT_TO_CDM2.
Proof.
  intros H80.
  assert (Hsky : sky_brightness sb moon_dist sun_dist zenith_dist
                 = night_and_sun (dark_night sb zenith_dist)
                     (twilight sb sun_dist zenith_dist)
                     (daylight sb sun_dist zenith_dist)).
  { unfold sky_brightness, total_brightness; rewrite H80; apply add_moon_at_80. }
  rewrite H80, ltb_irrefl.
  repeat split; [exact Hsky|].
  unfold skybrightness_get_luminance; rewrite Hsky; reflexivity.
Qed.

End EveryArithmetic.

Lemma two_radians : Rltb (Rlit 90 0) (2 * DR) = true.
Proof.
  apply Rltb_true; r_lits; rewrite DR_R; lra.
Qed.

Lemma airmass_40_above_90_witness : XM night = 40 /\ XS night = 40.
Proof.
  destruct (airmass_40_above_90 (F := R) 2020 6 0 0 0 0 50 2 2 1 1 1)
    as [Hm Hs].
  split; [apply Hm | apply Hs]; exact two_radians.
Defined.

Lemma angular_distances_clamped_witness :
  skybrightness_get_luminance noon 0 0 0 = skybrightness_get_luminance noon RD 0 0
  /\ skybrightness_get_luminance noon 0 0 0 = skybrightness_get_luminance noon 0 RD 0.
Proof.
  assert (Hone : ((RD : R) * DR)%flt = lit 1 0).
  { r_code; rewrite DR_R, RD_R; field. }
  assert (Hlt : (((0 : R) * DR)%flt <? lit 1 0)%flt = true).
  { r_code; apply Rltb_true; lra. }
  destruct (@angular_distances_clamped_to_1_degree R _ _ noon 0 0 0 RD Hone)
    as [Hm Hs].
  split; [apply Hm | apply Hs]; exact Hlt.
Defined.

Lemma moon_at_80_ZM : ZM moon_at_80 = 80.
Proof. cbn [moon_at_80 example_session skybrightness_prepare ZM]; r_ops; apply RD_DR. Qed.

Lemma no_moonlight_at_exactly_80_witness :
  skybrightness_get_luminance moon_at_80 0 0 0
  = (night_and_sun (dark_night moon_at_80 0) (twilight moon_at_80 0 0)
       (daylight moon_at_80 0 0) / lit 111 (-17) * NLAMBERT_TO_CDM2)%flt.
Proof.
  apply (@no_moonlight_at_exactly_80 R _ _ moon_at_80 0 0 0).
  exact moon_at_80_ZM.
Defined.

(** The inputs at which the zenith distance of the Moon is exactly 80, 90 and
    1 degrees exist in single precision as well, whatever the mathematical
    library: 0x3FB2B8B9, 0x3FC90FD0 and 0x3C8EFA2E. *)
Lemma binary32_exact_degrees :
  let DR32 := SFdiv Binary32.prec Binary32.emax
                (Binary32.of_decimal 180 0) (Binary32.of_decimal 314159 (-5)) in
  SFmul Binary32.prec Binary32.emax (S754_finite false 11712697 (-23)) DR32
  = Binary32.of_decimal 80 0
  /\ SFmul Binary32.prec Binary32.emax (S754_finite false 13176784 (-23)) DR32
     = Binary32.of_decimal 90 0
  /\ SFmul Binary32.prec Binary32.emax (S754_finite false 9370158 (-29)) DR32
     = Binary32.of_decimal 1 0.
Proof. vm_compute; repeat split. Qed.

Lemma binary32_moon_at_80 (lm : Binary32.libm) (year month : Z)
    (mp lat alt te rh dsz kt km kn md sd zd : Binary32.float) :
  let sb := @skybrightness_prepare _ (Binary32.B32Arith lm) year month mp lat
              alt te rh (S754_finite false 11712697 (-23)) dsz kt km kn in
  @sky_brightness _ (Binary32.B32Arith lm) sb md sd zd
  = @night_and_sun _ (Binary32.B32Arith lm)
      (@dark_night _ (Binary32.B32Arith lm) sb zd)
      (@twilight _ (Binary32.B32Arith lm) sb sd zd)
      (@daylight _ (Binary32.B32Arith lm) sb sd zd).
Proof.
  intros sb; unfold sky_brightness, total_brightness.
  assert (H80 : ZM sb = @lit _ (Binary32.B32Arith lm) 80 0).
  { destruct binary32_exact_degrees as [H80 _]; exact H80. }
  rewrite H80.
  apply (@add_moon_at_80 _ _ (B32Order lm)).
Qed.

(** ** Claims about [skybrightness_prepare] *)

Lemma moon_at_90_fields :
  ZM moon_at_90 = 90 /\ ZS moon_at_90 = 90
  /\ XM moon_at_90 = airmass 90 /\ XS moon_at_90 = airmass 90.
Proof.
  assert (H90 : 90 * RD * DR = 90) by apply RD_DR.
  assert (Hc : Rltb (Rlit 90 0) 90 = false) by (apply Rltb_false; r_lits; lra).
  cbn [moon_at_90 example_session skybrightness_prepare ZM ZS XM XS]; r_ops.
  rewrite H90, Hc; repeat split.
Qed.

(** Counterexample to C3 as stated: at a zenith distance of exactly 90 degrees
    the air mass is the value of the formula, which is below 40. *)
Lemma airmass_at_90_is_not_40 :
  90 <= ZM moon_at_90 /\ XM moon_at_90 <> 40
  /\ 90 <= ZS moon_at_90 /\ XS moon_at_90 <> 40.
Proof.
  destruct moon_at_90_fields as (-> & -> & -> & ->).
  assert (H : 0 < airmass 90 < 40) by (apply airmass_below_40; lra).
  repeat split; lra.
Qed.



Lemma lift2_undef_r (f : R -> R -> R) (x : xreal) : lift2 f x Undef = Undef.
Proof. destruct x; reflexivity. Qed.




(** C8, in exact arithmetic: the air mass formula of [skybrightness_prepare]
    does not decrease as the zenith distance grows from 0 to 90 degrees; so
    neither do the air masses it stores for the Moon and for the Sun, as
    functions of the zenith distances it is given (in radians). *)
Theorem airmass_nondecreasing_up_to_90 (z1 z2 : R) :
  0 <= z1 -> z1 <= z2 -> z2 <= 90 ->
  airmass z1 <= airmass z2
  /\ forall (year month : Z) (mp lat alt te rh kt km kn d : R),
       XM (skybrightness_prepare year month mp lat alt te rh (z1 * RD) d kt km kn)
       <= XM (skybrightness_prepare year month mp lat alt te rh (z2 * RD) d kt km kn)
       /\ XS (skybrightness_prepare year month mp lat alt te rh d (z1 * RD) kt km kn)
          <= XS (skybrightness_prepare year month mp lat alt te rh d (z2 * RD) kt km kn).
Proof.
  intros H0 H12 H90.
  pose proof (airmass_incr H0 H12 H90) as Hinc.
  split; [exact Hinc|]; intros.
  cbn [skybrightness_prepare XM XS]; r_ops; rewrite !RD_DR.
  assert (Hc1 : Rltb (Rlit 90 0) z1 = false) by (apply Rltb_false; r_lits; lra).
  assert (Hc2 : Rltb (Rlit 90 0) z2 = false) by (apply Rltb_false; r_lits; lra).
  rewrite Hc1, Hc2; split; exact Hinc.
Qed.

Lemma airmass_nondecreasing_up_to_90_witness : airmass 30 <= airmass 60.
Proof.
  apply (@airmass_nondecreasing_up_to_90 30 60); lra.
Defined.

(** ** Claims about [skybrightness_get_luminance] *)

(** The twilight, daylight and moonlight terms do not read the dark night
    scale. *)
Lemma sun_moon_terms_ignore_night_scale
    (year month : Z) (mp lat alt te rh dmz dsz kt km kn kn' md sd zd : R) :
  let sb := skybrightness_prepare year month mp lat alt te rh dmz dsz kt km kn in
  let sb' := skybrightness_prepare year month mp lat alt te rh dmz dsz kt km kn' in
  twilight sb' sd zd = twilight sb sd zd
  /\ daylight sb' sd zd = daylight sb sd zd
  /\ moonlight sb' md zd = moonlight sb md zd
  /\ ZM sb' = ZM sb.
Proof. repeat split. Qed.

Lemma sky_brightness_R (sb : skybrightness_t R) (md sd zd : R) :
  sky_brightness sb md sd zd
  = dark_night sb zd + Rmin (twilight sb sd zd) (daylight sb sd zd)
    + moonlight sb md zd * moon_weight (ZM sb).
Proof.
  unfold sky_brightness, total_brightness.
  rewrite add_moon_R, night_and_sun_R; reflexivity.
Qed.


(** *** Bounds on the composite extinction coefficient *)

Lemma Rpowf_unit_base (y : R) : Rpowf (55 / 100 / (55 / 100)) y = 1.
Proof.
  rewrite Rpowf_pos by lra.
  replace (55 / 100 / (55 / 100)) with 1 by field.
  unfold Rpower; rewrite ln_1, Rmult_0_r; apply exp_0.
Qed.

Lemma exp_half : exp (1 / 2) <= 2.
Proof.
  pose proof exp_le_3 as H3; pose proof (exp_pos (1 / 2)) as Hp.
  replace 1 with (1 / 2 + 1 / 2) in H3 by field.
  rewrite exp_plus in H3; nra.
Qed.

Lemma ln_half : ln (1 / 2) <= -1 / 2.
Proof.
  rewrite <- (ln_exp (-1 / 2)).
  assert (H : 1 / 2 <= exp (-1 / 2)).
  { replace (-1 / 2) with (- (1 / 2)) by field; rewrite exp_Ropp.
    pose proof exp_half; pose proof (exp_pos (1 / 2)).
    apply Rmult_le_reg_r with (exp (1 / 2)); [lra|].
    rewrite Rinv_l; lra. }
  destruct H as [H|H]; [left; apply ln_increasing; [lra | exact H]
                       | right; rewrite H; reflexivity].
Qed.

Lemma ln_le_minus_1 (b : R) : 0 < b -> ln b <= b - 1.
Proof.
  intros Hb; pose proof (exp_ineq1_le (ln b)) as H.
  rewrite exp_ln in H by exact Hb; lra.
Qed.

Lemma exp_le_compat (a b : R) : a <= b -> exp a <= exp b.
Proof.
  intros [H|H]; [left; apply exp_increasing; exact H | right; rewrite H; reflexivity].
Qed.

Lemma humidity_power_bound (rh : R) :
  0 < rh <= 50 -> 0 < Rpowf (1 - 32 / 100 / ln (rh / 100)) (133 / 100) <= 3.
Proof.
  intros Hrh.
  assert (H100 : 0 < rh < 100) by lra.
  destruct (humidity_base H100) as [Hl Hb].
  assert (Hl2 : ln (rh / 100) <= -1 / 2).
  { apply Rle_trans with (ln (1 / 2)); [|apply ln_half].
    destruct (Req_dec_T (rh / 100) (1 / 2)) as [->|Hne]; [lra|].
    left; apply ln_increasing; lra. }
  split; [apply Rpowf_gt_0; lra|].
  rewrite Rpowf_pos by lra.
  set (b := 1 - 32 / 100 / ln (rh / 100)) in *.
  assert (Hb2 : b <= 164 / 100).
  { unfold b.
    assert (Hi : -2 <= / ln (rh / 100) < 0).
    { assert (Hneg : / ln (rh / 100) < 0) by (apply Rinv_lt_0_compat; exact Hl).
      assert (Hinv : ln (rh / 100) * / ln (rh / 100) = 1) by (apply Rinv_r; lra).
      split; [nra | exact Hneg]. }
    unfold Rdiv at 1; nra. }
  pose proof (@ln_le_minus_1 b) as Hln.
  unfold Rpower.
  apply Rle_trans with (exp 1); [|apply exp_le_3].
  apply exp_le_compat.
  assert (ln b <= 64 / 100) by lra.
  nra.
Qed.

(** On a site at or above sea level, at no more than 15 degrees Celsius and
    a relative humidity of at most 50 percent, the composite extinction
    coefficient is between 0 and 1. *)
Lemma extinction_plausible (month : Z) (la al te rh : R) :
  0 <= al -> te <= 15 -> 0 < rh <= 50 -> -6 <= la * RD <= 6 ->
  0 < extinction month la al te rh <= 1.
Proof.
  intros Hal Hte Hrh Hla.
  split; [apply extinction_pos; lra|].
  rewrite extinction_R.
  assert (He1 : 0 < exp (-1 * al / 8200) <= 1).
  { split; [apply exp_pos|]. rewrite <- exp_0; apply exp_le_compat; lra. }
  assert (He2 : 0 < exp (-1 * al / 1500) <= 1).
  { split; [apply exp_pos|]. rewrite <- exp_0; apply exp_le_compat; lra. }
  assert (Hrw : 0 < rayleigh_water te rh <= 16 / 100).
  { split; [apply rayleigh_water_pos; lra|].
    unfold rayleigh_water; rewrite Rpowf_unit_base.
    assert (Hx : 0 < exp (te / 15) <= 3).
    { split; [apply exp_pos|].
      apply Rle_trans with (exp 1); [apply exp_le_compat; lra | apply exp_le_3]. }
    nra. }
  assert (Hae : 0 < aerosol month la rh <= 4 / 10).
  { split; [apply aerosol_pos; lra|].
    unfold aerosol; rewrite Rpowf_unit_base.
    pose proof (humidity_power_bound Hrh) as Hp.
    pose proof (SIN_bound ((IZR month - 3) * 30 * RD)) as [Hs1 Hs2].
    set (P := Rpowf _ _) in *.
    assert (Hs : 0 < 1 + 33 / 100 * (if Rltb 0 la then 1 else -1)
                         * sin ((IZR month - 3) * 30 * RD) <= 133 / 100).
    { destruct (Rltb 0 la); lra. }
    set (S := 1 + _) in *.
    nra. }
  assert (Hoz : ozone month la <= 6 / 100).
  { unfold ozone.
    pose proof (COS_bound ((IZR month - 3) * 30 * RD)) as [Hc1 Hc2].
    pose proof (COS_bound (3 * (la * RD))) as [Hd1 Hd2].
    set (l := la * RD) in *; set (c := cos ((IZR month - 3) * 30 * RD)) in *.
    assert (l * c <= 6) by nra.
    lra. }
  nra.
Qed.

(** The air masses that [skybrightness_prepare] stores are between 0 and 40
    when the zenith distances are not negative. *)
Lemma clamped_airmass_bounds (z : R) :
  0 <= z -> 0 < (if Rltb (Rlit 90 0) z then Rlit 40 0 else airmass z) <= 40.
Proof.
  intros Hz; destruct (Rltb (Rlit 90 0) z) eqn:Hc; r_lits; [lra|].
  apply Rltb_false in Hc; revert Hc; r_lits; intros Hc.
  assert (H : 0 < airmass z < 40) by (apply airmass_below_40; lra).
  lra.
Qed.

Lemma example_session_K (dmz dsz : R) : 0 < K (example_session dmz dsz) <= 1.
Proof.
  cbn [example_session skybrightness_prepare K]; r_ops.
  apply extinction_plausible; rewrite ?DR_RD; lra.
Qed.

Lemma example_session_airmass (dmz dsz : R) :
  0 <= dmz -> 0 <= dsz ->
  0 < XM (example_session dmz dsz) <= 40 /\ 0 < XS (example_session dmz dsz) <= 40.
Proof.
  intros Hm Hs; pose proof DR_pos.
  cbn [example_session skybrightness_prepare XM XS]; r_ops.
  split; apply clamped_airmass_bounds; apply Rmult_le_pos; lra.
Qed.

(** *** Finite and non-negative luminance *)

Lemma target_den_pos (zd : R) :
  0 <= zd <= PI / 2 -> 0 < cos zd + 25 / 1000 * fast_expf (-11 * cos zd).
Proof.
  intros Hzd.
  assert (Hc : 0 <= cos zd) by (apply cos_ge_0; lra).
  pose proof (COS_bound zd) as [_ Hc1].
  assert (Hf : 0 < fast_expf (-11 * cos zd)) by (apply fast_expf_pos; lra).
  lra.
Qed.

(** A session whose composite extinction is in (0, 40], whose air masses are
    in (0, 40] and whose scale coefficients are not negative gives a finite,
    non-negative luminance in every direction above the horizon. *)
Lemma plausible_session_luminance (sb : skybrightness_t R) (md sd zd : R) :
  0 < K sb <= 40 -> 0 < XM sb <= 40 -> 0 < XS sb <= 40 ->
  0 <= k_BT sb -> 0 <= k_BM sb -> 0 <= k_BN sb ->
  0 <= zd <= PI / 2 ->
  skybrightness_get_luminance (fin_session sb) (Fin md) (Fin sd) (Fin zd)
  = Fin (skybrightness_get_luminance sb md sd zd)
  /\ 0 <= skybrightness_get_luminance sb md sd zd.
Proof.
  intros HK HM HS Ht Hm Hn Hzd.
  pose proof (target_den_pos Hzd) as Hden.
  split.
  - apply luminance_fin; lra.
  - apply luminance_nonneg; try lra; try nra.
    apply target_airmass_pos; exact Hzd.
Qed.

(** C6 (as amended): take a session prepared with a relative humidity strictly
    between 0 and 100, non-negative zenith distances of the Moon and of the
    Sun and non-negative scale coefficients, whose composite extinction
    coefficient [k] is positive and at most 40.  For every direction at or
    above the horizon (zenith distance between 0 and pi/2) and every angular
    distance to the Moon and to the Sun, [skybrightness_get_luminance]
    returns a finite, non-negative number.  (The function takes the session
    by value and returns a number only: it has no effect on the session.) *)
Theorem luminance_finite_nonnegative
    (year month : Z) (mp lat alt te rh dmz dsz kt km kn md sd zd k : R) :
  0 < rh < 100 -> 0 <= dmz -> 0 <= dsz ->
  0 <= kt -> 0 <= km -> 0 <= kn ->
  K (skybrightness_prepare year month (Fin mp) (Fin lat) (Fin alt) (Fin te)
       (Fin rh) (Fin dmz) (Fin dsz) (Fin kt) (Fin km) (Fin kn)) = Fin k ->
  0 < k <= 40 ->
  0 <= zd <= PI / 2 ->
  exists l : R,
    skybrightness_get_luminance
      (skybrightness_prepare year month (Fin mp) (Fin lat) (Fin alt) (Fin te)
         (Fin rh) (Fin dmz) (Fin dsz) (Fin kt) (Fin km) (Fin kn))
      (Fin md) (Fin sd) (Fin zd) = Fin l
    /\ 0 <= l.
Proof.
  intros Hrh Hm Hs Ht Hkm Hkn HK Hk Hzd.
  rewrite (prepare_fin year month mp lat alt te kt km kn Hrh Hm Hs) in *.
  set (sb := skybrightness_prepare year month mp lat alt te rh dmz dsz kt km kn) in *.
  assert (HKR : K sb = k) by (cbn [fin_session K] in HK; injection HK; auto).
  assert (HX : 0 < XM sb <= 40 /\ 0 < XS sb <= 40).
  { pose proof DR_pos.
    unfold sb; cbn [skybrightness_prepare XM XS]; r_ops.
    split; apply clamped_airmass_bounds; apply Rmult_le_pos; lra. }
  destruct HX as [HXM HXS].
  exists (skybrightness_get_luminance sb md sd zd).
  apply plausible_session_luminance; try assumption; rewrite ?HKR; assumption.
Qed.

Lemma noon_prepared :
  skybrightness_prepare 2020 6 (Fin 0) (Fin 0) (Fin 0) (Fin 0) (Fin 50)
    (Fin 2) (Fin 0) (Fin 1) (Fin 1) (Fin 1) = fin_session noon.
Proof. apply prepare_fin; lra. Qed.

Lemma luminance_finite_nonnegative_witness :
  exists l : R,
    skybrightness_get_luminance
      (skybrightness_prepare 2020 6 (Fin 0) (Fin 0) (Fin 0) (Fin 0) (Fin 50)
         (Fin 2) (Fin 0) (Fin 1) (Fin 1) (Fin 1))
      (Fin 0) (Fin 0) (Fin 0) = Fin l
    /\ 0 <= l.
Proof.
  pose proof (example_session_K 2 0) as HK; fold noon in HK.
  pose proof PI_RGT_0.
  apply (@luminance_finite_nonnegative 2020 6 0 0 0 0 50 2 0 1 1 1 0 0 0 (K noon));
    try lra.
  rewrite noon_prepared; reflexivity.
Defined.

(** *** The session [noon], in numbers *)

Lemma noon_fields :
  ZS noon = 0 /\ ZM noon = 2 * DR
  /\ k_BT noon = 1 /\ k_BM noon = 1 /\ k_BN noon = 1.
Proof.
  cbn [noon example_session skybrightness_prepare ZS ZM k_BT k_BM k_BN]; r_ops.
  repeat split; ring.
Qed.

Lemma moon_weight_below_horizon : moon_weight (2 * DR) = 0.
Proof.
  unfold moon_weight; rewrite DR_R.
  assert (H1 : Rltb (2 * (180 / (314159 / 100000))) 80 = false)
    by (apply Rltb_false; lra).
  assert (H2 : Rleb (2 * (180 / (314159 / 100000))) 90 = false)
    by (apply Rleb_false; lra).
  rewrite H1, H2, andb_false_r; reflexivity.
Qed.

Lemma angular_dist_0 : angular_dist 0 = 1.
Proof. rewrite angular_dist_R, Rmult_0_l; apply Rmax_right; lra. Qed.

Lemma exp_22 : 630000 <= exp 22.
Proof.
  pose proof (exp_ineq1_le (11 / 8)) as H1.
  assert (H2 : 564 / 100 <= exp (11 / 4)).
  { replace (11 / 4) with (11 / 8 + 11 / 8) by field; rewrite exp_plus; nra. }
  assert (H3 : 318 / 10 <= exp (11 / 2)).
  { replace (11 / 2) with (11 / 4 + 11 / 4) by field; rewrite exp_plus; nra. }
  assert (H4 : 1011 <= exp 11).
  { replace 11 with (11 / 2 + 11 / 2) by field; rewrite exp_plus; nra. }
  replace 22 with (11 + 11) by field; rewrite exp_plus; nra.
Qed.

Lemma exp10f_le (x y : R) : x <= y -> exp10f x <= exp10f y.
Proof.
  intros Hxy; rewrite !exp10f_R; apply exp_le_compat.
  pose proof ln_10_low; nra.
Qed.

Lemma fast_exp10f_le_exp10f (x : R) : 0 <= x -> fast_exp10f x <= exp10f x.
Proof.
  intros Hx; rewrite fast_exp10f_R, exp10f_R; apply fast_expf_le_exp.
  pose proof ln_10_low; nra.
Qed.

(** Looking at the Sun, at the zenith: the scattering function of line 161
    is below [6.2e7 + 3.06 * 10^7]. *)
Lemma FS_at_sun : FS 0 <= 62000000 + 306 / 100 * exp10f 7.
Proof.
  unfold FS, pow2; r_ops; rewrite angular_dist_0.
  pose proof (fast_exp10f_le_exp10f (x := 615 / 100 - 1 / 40)) as H1.
  pose proof (fast_exp10f_le_exp10f (x := 536 / 100)) as H2.
  pose proof (@exp10f_le (615 / 100 - 1 / 40) 7) as H3.
  pose proof (@exp10f_le (536 / 100) 7) as H4.
  pose proof (fast_exp10f_nonneg (536 / 100)) as H5.
  pose proof (COS_bound (1 * RD)) as [Hc1 Hc2].
  set (c := cos (1 * RD)) in *.
  assert (Hcc : 0 <= c * c <= 1) by nra.
  set (f1 := fast_exp10f (615 / 100 - 1 / 40)) in *.
  set (f2 := fast_exp10f (536 / 100)) in *.
  set (A := exp10f 7) in *.
  assert (Hf1 : f1 <= A) by lra.
  assert (Hf2 : f2 <= A) by lra.
  assert (H6 : f2 * (106 / 100 + c * c) <= A * (206 / 100)).
  { apply Rmult_le_compat; lra. }
  replace (62000000 / (1 * 1)) with 62000000 by field.
  lra.
Qed.

(** The first factor of the twilight term at noon exceeds [630000 * 10^7]. *)
Lemma twilight_factor_at_noon (q : R) :
  0 <= q ->
  630000 * exp10f 7
  <= exp10f (-4 / 10 * (MS - MO + 325 / 10 - (90 - 0) - q)).
Proof.
  intros Hq.
  apply Rle_trans with (exp10f 29).
  - rewrite !exp10f_R.
    replace (29 * ln 10) with (22 * ln 10 + 7 * ln 10) by ring.
    rewrite exp_plus.
    pose proof exp_22; pose proof ln_10_low.
    assert (exp 22 <= exp (22 * ln 10)) by (apply exp_le_compat; lra).
    pose proof (exp_pos (7 * ln 10)); nra.
  - apply exp10f_le; unfold MS, MO; r_code; lra.
Qed.

Lemma daylight_below_twilight_at_noon :
  daylight noon 0 0 < twilight noon 0 0.
Proof.
  destruct noon_fields as (HZS & _ & Hkt & _ & _).
  pose proof (example_session_K 2 0) as HK; fold noon in HK.
  destruct (@example_session_airmass 2 0) as [_ HXS]; try lra; fold noon in HXS.
  assert (HX : 0 < target_airmass 0).
  { apply target_airmass_pos; pose proof PI_RGT_0; lra. }
  rewrite daylight_R, twilight_R, HZS, Hkt, angular_dist_0.
  assert (Hsc : 0 < scattered noon 0) by (apply scattered_pos; lra).
  assert (HC4 : 0 <= C4 noon <= 1) by (apply fast_exp10f_unit; nra).
  pose proof (FS_pos 0) as HFS0; pose proof FS_at_sun as HFS.
  assert (HE2 : 0 < exp10f (-4 / 10 * (MS - MO + 4327 / 100)) <= 1).
  { split; [apply exp10f_pos|].
    left; apply exp10f_lt_1; unfold MS, MO; r_code; lra. }
  assert (HE : 630000 * exp10f 7
               <= exp10f (-4 / 10 * (MS - MO + 325 / 10 - (90 - 0)
                                     - 0 * DR / (360 * K noon)))).
  { apply twilight_factor_at_noon. unfold Rdiv; rewrite !Rmult_0_l; lra. }
  pose proof (exp10f_ge_1 (x := 7)) as HA.
  set (E := exp10f (-4 / 10 * (MS - MO + 325 / 10 - (90 - 0)
                               - 0 * DR / (360 * K noon)))) in *.
  set (E2 := exp10f (-4 / 10 * (MS - MO + 4327 / 100))) in *.
  set (A := exp10f 7) in *.
  set (G := FS 0 * C4 noon + 440000 * (1 - C4 noon)).
  set (s := scattered noon 0) in *.
  assert (HG : 0 <= G <= 62440000 + 306 / 100 * A).
  { unfold G; set (c := C4 noon) in *; set (f := FS 0) in *. nra. }
  assert (HA1 : 1 <= A) by (apply HA; lra).
  assert (H1 : E2 * s * G <= s * G).
  { assert (0 <= s * G) by (apply Rmult_le_pos; lra). nra. }
  assert (H2 : s * G < s * (100 * E)).
  { apply Rmult_lt_compat_l; [exact Hsc|]. nra. }
  replace (E * (100 / 1) * s * 1) with (s * (100 * E)) by field.
  lra.
Qed.

(** Counterexample to C1 as stated: with the Sun at the zenith the twilight
    term is the larger one, and the total holds the daylight term, not the
    larger of the two. *)
Lemma total_does_not_add_larger_term :
  sky_brightness noon 0 0 0
  <> add_moon (ZM noon) (moonlight noon 0 0)
       (dark_night noon 0 + Rmax (twilight noon 0 0) (daylight noon 0 0)).
Proof.
  pose proof daylight_below_twilight_at_noon as Hlt.
  unfold sky_brightness, total_brightness.
  rewrite !add_moon_R, night_and_sun_R.
  rewrite Rmin_right, Rmax_left by lra.
  lra.
Qed.

(** *** A direction below the horizon *)

Lemma below_horizon_cos : cos below_horizon = -1 / 10.
Proof. unfold below_horizon; apply cos_acos; lra. Qed.

Lemma below_horizon_nonneg : 0 <= below_horizon.
Proof. unfold below_horizon; apply acos_bound. Qed.

Lemma exp_11_10 : exp (11 / 10) <= 334 / 100.
Proof.
  replace (11 / 10) with (1 + 1 / 10) by field; rewrite exp_plus.
  pose proof exp_le_3; pose proof (exp_pos 1).
  pose proof (exp_ineq1_le (- (1 / 10))) as Hm.
  rewrite exp_Ropp in Hm.
  pose proof (exp_pos (1 / 10)) as Hp.
  assert (Hi : / exp (1 / 10) * exp (1 / 10) = 1) by (apply Rinv_l; lra).
  assert (H10 : exp (1 / 10) <= 10 / 9) by nra.
  nra.
Qed.

(** The denominator of line 130 is negative there: so is the air mass. *)
Lemma below_horizon_airmass : target_airmass below_horizon < -10.
Proof.
  rewrite target_airmass_R, below_horizon_cos.
  replace (-11 * (-1 / 10)) with (11 / 10) by field.
  assert (Hf : 0 < fast_expf (11 / 10) <= 334 / 100).
  { split; [apply fast_expf_pos; lra|].
    apply Rle_trans with (exp (11 / 10)); [apply fast_expf_le_exp; lra | apply exp_11_10]. }
  set (g := -1 / 10 + 25 / 1000 * fast_expf (11 / 10)).
  assert (Hg : -1 / 10 < g < 0) by (unfold g; lra).
  assert (Hi : / g < 0) by (apply Rinv_lt_0_compat; lra).
  assert (Hgi : g * / g = 1) by (apply Rinv_r; lra).
  unfold Rdiv; rewrite Rmult_1_l; nra.
Qed.

Lemma below_horizon_defined :
  cos below_horizon + 25 / 1000 * fast_expf (-11 * cos below_horizon) <> 0.
Proof.
  pose proof below_horizon_airmass as H; rewrite target_airmass_R in H.
  intros H0; rewrite H0 in H.
  unfold Rdiv in H; rewrite Rinv_0 in H; lra.
Qed.

Lemma example_session_K_low (dmz dsz : R) : 1 / 10 < K (example_session dmz dsz).
Proof.
  cbn [example_session skybrightness_prepare K]; r_ops.
  rewrite extinction_R.
  replace (-1 * 0 / 8200) with 0 by field; replace (-1 * 0 / 1500) with 0 by field.
  rewrite exp_0.
  assert (Hrw : 1066 / 10000 < rayleigh_water 0 50).
  { unfold rayleigh_water; rewrite Rpowf_unit_base.
    pose proof (exp_pos (0 / 15)); nra. }
  assert (Hae : 0 < aerosol 6 (0 * DR) 50) by (apply aerosol_pos; lra).
  assert (Hoz : 0 < ozone 6 (0 * DR)) by (apply ozone_pos; rewrite DR_RD; lra).
  lra.
Qed.

(** The dark night term below the horizon, against [u = 10^(-0.4 K X)]. *)
Lemma dark_night_below_horizon :
  dark_night noon below_horizon
  <= 442 / 1000000000000000
     * exp10f (-4 / 10 * K noon * target_airmass below_horizon).
Proof.
  destruct noon_fields as (_ & _ & _ & _ & Hkn).
  pose proof (example_session_K 2 0) as HK; fold noon in HK.
  pose proof below_horizon_airmass as HX.
  rewrite dark_night_R, Hkn.
  unfold Rpowf; rewrite Rpowf_2.
  assert (Hs : sin below_horizon * sin below_horizon = 99 / 100).
  { pose proof (sin2 below_horizon) as H2; unfold Rsqr in H2.
    rewrite H2, below_horizon_cos; field. }
  rewrite Hs.
  assert (Hq : 2 / 10 <= sqrt (1 - 96 / 100 * (99 / 100))).
  { replace (2 / 10) with (sqrt (2 / 10 * (2 / 10))) by (apply sqrt_square; lra).
    apply sqrt_le_1_alt; lra. }
  assert (Hd : 0 < 6 / 10 / sqrt (1 - 96 / 100 * (99 / 100)) <= 3).
  { set (r := sqrt _) in *.
    assert (Hi : 0 < / r <= 5).
    { split; [apply Rinv_0_lt_compat; lra|].
      replace 5 with (/ (2 / 10)) by field.
      apply Rinv_le_contravar; lra. }
    unfold Rdiv at 1; lra. }
  pose proof (COS_bound (6283 / 1000 * (IZR (Y noon) - 1992) / 11)) as [Hc1 Hc2].
  assert (HBO : BO = 1 / 10000000000000) by (unfold BO; r_code; reflexivity).
  rewrite HBO.
  assert (Hf : 0 <= fast_exp10f (-4 / 10 * K noon * target_airmass below_horizon)
               <= exp10f (-4 / 10 * K noon * target_airmass below_horizon)).
  { split; [apply fast_exp10f_nonneg | apply fast_exp10f_le_exp10f; nra]. }
  set (f := fast_exp10f _) in *; set (u := exp10f _) in *.
  set (c := cos _) in *; set (d := 6 / 10 / sqrt _) in *.
  assert (H1 : 0 <= 1 / 10000000000000 * (1 + 3 / 10 * c) <= 13 / 100000000000000) by lra.
  assert (H2 : 0 <= 4 / 10 + d <= 34 / 10) by lra.
  assert (H3 : 1 / 10000000000000 * (1 + 3 / 10 * c) * (4 / 10 + d)
               <= 13 / 100000000000000 * (34 / 10)).
  { apply Rmult_le_compat; lra. }
  assert (H4 : 0 <= 1 / 10000000000000 * (1 + 3 / 10 * c) * (4 / 10 + d))
    by (apply Rmult_le_pos; lra).
  set (p := 1 / 10000000000000 * (1 + 3 / 10 * c) * (4 / 10 + d)) in *.
  assert (H5 : p * f <= 13 / 100000000000000 * (34 / 10) * u).
  { apply Rmult_le_compat; lra. }
  lra.
Qed.

(** The twilight term below the horizon, at noon. *)
Lemma twilight_below_horizon :
  let u := exp10f (-4 / 10 * K noon * target_airmass below_horizon) in
  14 / 10 <= u /\ twilight noon 0 below_horizon <= 100 * (1 - u).
Proof.
  intros u.
  destruct noon_fields as (HZS & _ & Hkt & _ & _).
  pose proof (example_session_K 2 0) as HK; fold noon in HK.
  pose proof (example_session_K_low 2 0) as HKl; fold noon in HKl.
  pose proof below_horizon_airmass as HX.
  assert (Hu : 14 / 10 <= u).
  { unfold u; rewrite exp10f_R.
    pose proof ln_10_low as HL.
    pose proof (exp_ineq1_le (-4 / 10 * K noon * target_airmass below_horizon * ln 10)).
    assert (1 <= - (K noon * target_airmass below_horizon)) by nra.
    assert (4 / 10 <= -4 / 10 * K noon * target_airmass below_horizon * ln 10) by nra.
    lra. }
  split; [exact Hu|].
  rewrite twilight_R, HZS, Hkt, angular_dist_0.
  unfold scattered; fold u.
  assert (HE : 1 <= exp10f (-4 / 10 * (MS - MO + 325 / 10 - (90 - 0)
                                      - below_horizon * DR / (360 * K noon)))).
  { apply exp10f_ge_1.
    assert (Hq : 0 <= below_horizon * DR / (360 * K noon)).
    { apply Rmult_le_pos.
      - apply Rmult_le_pos; [apply below_horizon_nonneg | left; apply DR_pos].
      - left; apply Rinv_0_lt_compat; lra. }
    unfold MS, MO; r_code; lra. }
  set (E := exp10f (-4 / 10 * _)) in *.
  replace (E * (100 / 1) * (1 - u) * 1) with (100 * (E * (1 - u))) by field.
  assert (E * (1 - u) <= 1 - u) by nra.
  lra.
Qed.

Lemma luminance_below_horizon :
  skybrightness_get_luminance noon 0 0 below_horizon < 0.
Proof.
  destruct noon_fields as (_ & HZM & _ & _ & _).
  pose proof dark_night_below_horizon as HBN.
  destruct twilight_below_horizon as [Hu HBT].
  rewrite luminance_R, HZM, moon_weight_below_horizon, Rmult_0_r, Rplus_0_r.
  pose proof (Rmin_l (twilight noon 0 below_horizon) (daylight noon 0 below_horizon)).
  set (u := exp10f _) in *.
  assert (HB : dark_night noon below_horizon
               + Rmin (twilight noon 0 below_horizon) (daylight noon 0 below_horizon)
               < 0) by lra.
  set (B := dark_night noon below_horizon + Rmin _ _) in *.
  assert (Hc : 0 < / (111 / 100000000000000000) * (3183 / 1000000000)).
  { apply Rmult_lt_0_compat; [apply Rinv_0_lt_compat|]; lra. }
  unfold Rdiv at 1; rewrite Rmult_assoc.
  set (c := / (111 / 100000000000000000) * (3183 / 1000000000)) in *.
  nra.
Qed.

(** Counterexample to C6 as stated: a session prepared from plausible inputs
    (humidity 50, extinction between 0.1 and 1), queried in a direction below
    the horizon, returns a negative luminance. *)
Lemma luminance_negative_below_horizon :
  exists l : R,
    skybrightness_get_luminance
      (skybrightness_prepare 2020 6 (Fin 0) (Fin 0) (Fin 0) (Fin 0) (Fin 50)
         (Fin 2) (Fin 0) (Fin 1) (Fin 1) (Fin 1))
      (Fin 0) (Fin 0) (Fin below_horizon) = Fin l
    /\ l < 0.
Proof.
  exists (skybrightness_get_luminance noon 0 0 below_horizon).
  split; [|exact luminance_below_horizon].
  rewrite noon_prepared.
  pose proof (example_session_K 2 0) as HK; fold noon in HK.
  apply luminance_fin; [exact below_horizon_defined | lra].
Qed.

(** *** The Moon at 80 degrees *)

Lemma blend_pos (F C : R) : 0 < F -> 0 <= C <= 1 -> 0 < F * C + 440000 * (1 - C).
Proof.
  intros HF HC.
  destruct (Rle_dec C (1 / 2)) as [Hh|Hh]; nra.
Qed.

Lemma moonlight_pos (sb : skybrightness_t R) (md zd : R) :
  0 < K sb -> 0 < target_airmass zd ->
  0 < k_BM sb -> 0 <= K sb * XM sb <= 1600 ->
  0 < moonlight sb md zd.
Proof.
  intros HK HX Hk Hx; rewrite moonlight_R.
  pose proof (@scattered_pos sb zd HK HX).
  pose proof (blend_pos (FM_pos md) (fast_exp10f_unit Hx)).
  pose proof (exp10f_pos (-4 / 10 * (MM sb - MO + 4327 / 100))).
  repeat apply Rmult_lt_0_compat; assumption.
Qed.

Lemma RD_pos : 0 < RD.
Proof. rewrite RD_R; lra. Qed.

Lemma moonlight_at_80_pos : 0 < moonlight moon_at_80 0 0.
Proof.
  pose proof (example_session_K (80 * RD) 2) as HK.
  pose proof RD_pos.
  destruct (@example_session_airmass (80 * RD) 2) as [HXM _]; try lra.
  fold moon_at_80 in *.
  apply moonlight_pos; try lra; try nra.
  - apply target_airmass_pos; pose proof PI_RGT_0; lra.
  - cbn [moon_at_80 example_session skybrightness_prepare k_BM]; lra.
Qed.

(** C2, at the input where the code departs from it: a zenith distance of the
    Moon of exactly 80 degrees.  There the luminance holds no moonlight at
    all, although the moonlight term is positive; whereas at every other
    zenith distance between 79 and 81 degrees at least nine tenths of a
    (non-negative) moonlight term are added: the luminance jumps at 80. *)
Theorem moonlight_jumps_at_80 :
  ZM moon_at_80 = 80
  /\ 0 < moonlight moon_at_80 0 0
  /\ skybrightness_get_luminance moon_at_80 0 0 0
     = (dark_night moon_at_80 0
        + Rmin (twilight moon_at_80 0 0) (daylight moon_at_80 0 0))
       / (111 / 100000000000000000) * (3183 / 1000000000)
  /\ forall z BM B : R,
       79 <= z <= 81 -> z <> 80 -> 0 <= BM ->
       B + 9 / 10 * BM <= add_moon z BM B.
Proof.
  split; [exact moon_at_80_ZM|].
  split; [exact moonlight_at_80_pos|].
  split.
  - rewrite luminance_R, moon_at_80_ZM.
    assert (Hw : moon_weight 80 = 0).
    { unfold moon_weight.
      assert (H1 : Rltb 80 80 = false) by (apply Rltb_false; lra).
      rewrite H1; reflexivity. }
    rewrite Hw, Rmult_0_r, Rplus_0_r; reflexivity.
  - intros z BM B Hz Hne HBM; rewrite add_moon_R.
    assert (Hw : 9 / 10 <= moon_weight z).
    { unfold moon_weight.
      destruct (Rltb z 80) eqn:H1; [lra|].
      apply Rltb_false in H1.
      assert (H2 : Rltb 80 z = true) by (apply Rltb_true; lra).
      assert (H3 : Rleb z 90 = true) by (apply Rleb_true; lra).
      rewrite H2, H3; cbn [andb]; lra. }
    nra.
Qed.

(** *** Doubling the dark night scale, where the Sun and the Moon add
    nothing *)


(** ** Single precision: what rounding changes

    The claims on the control flow hold in single precision as they are
    proved for every arithmetic.  The analytic claims are proved in exact
    arithmetic; the two lemmas below mark what rounding changes. *)

(** At a zenith distance of exactly 90.0f (input 0x3FC90FD0) the air mass is
    the value of the formula, whatever the mathematical library computes. *)
Lemma binary32_moon_at_90 (lm : Binary32.libm) (year month : Z)
    (mp lat alt te rh dsz kt km kn : Binary32.float) :
  XM (@skybrightness_prepare _ (Binary32.B32Arith lm) year month mp lat alt te
        rh (S754_finite false 13176784 (-23)) dsz kt km kn)
  = @airmass _ (Binary32.B32Arith lm) (Binary32.of_decimal 90 0).
Proof.
  cbn [skybrightness_prepare XM].
  destruct binary32_exact_degrees as (_ & H90 & _).
  change (@mul _ (Binary32.B32Arith lm)
            (S754_finite false 13176784 (-23)) (@DR _ (Binary32.B32Arith lm)))
    with (Binary32.of_decimal 90 0) at 1 2.
  reflexivity.
Qed.

(** The exponentials of the extinction see the altitude through
    [-1 * AL / 8200] and [-1 * AL / 1500], which round: an altitude of 0 and
    the smallest positive altitude give the same composite extinction
    coefficient, whatever the mathematical library computes.  In single
    precision the coefficient decreases with the altitude only up to
    rounding. *)
Lemma binary32_altitude_tie (lm : Binary32.libm) (month : Z)
    (la te rh : Binary32.float) :
  @extinction _ (Binary32.B32Arith lm) month la (S754_zero false) te rh
  = @extinction _ (Binary32.B32Arith lm) month la (S754_finite false 1 (-149)) te rh.
Proof.
  unfold extinction; cbn [lit mul div Binary32.B32Arith].
  assert (H1 : forall d : Z,
             (d = 8200 \/ d = 1500)%Z ->
             SFdiv Binary32.prec Binary32.emax
               (SFmul Binary32.prec Binary32.emax (Binary32.of_decimal (-1) 0)
                  (S754_finite false 1 (-149)))
               (Binary32.of_decimal d 0)
             = SFdiv Binary32.prec Binary32.emax
                 (SFmul Binary32.prec Binary32.emax (Binary32.of_decimal (-1) 0)
                    (S754_zero false))
                 (Binary32.of_decimal d 0)).
  { intros d [-> | ->]; vm_compute; reflexivity. }
  rewrite !H1 by (left + right; reflexivity).
  reflexivity.
Qed.

(** * Further properties of the code *)

(** ** [fast_expf]: ten squarings of [1 + x / 1024], in exact arithmetic *)

Lemma squarings_mul (n : nat) (a b : R) :
  squarings n (a * b) = squarings n a * squarings n b.
Proof.
  revert a b; induction n as [|n IH]; intros a b; cbn [squarings]; [reflexivity|].
  r_ops. rewrite <- IH. f_equal; ring.
Qed.

Lemma squarings_exp (n : nat) (s : R) : squarings n (exp s) = exp (2 ^ n * s).
Proof.
  revert s; induction n as [|n IH]; intros s; cbn [squarings].
  - rewrite pow_O, Rmult_1_l; reflexivity.
  - r_ops. rewrite <- exp_plus, IH. f_equal; simpl; ring.
Qed.

Lemma squarings_mono (n : nat) (a b : R) :
  0 <= a <= b -> squarings n a <= squarings n b.
Proof.
  revert a b; induction n as [|n IH]; intros a b Hab; cbn [squarings]; [lra|].
  apply IH; r_ops. split; [nra | apply Rmult_le_compat; lra].
Qed.

(** Bernoulli's inequality, along the squarings. *)
Lemma squarings_bernoulli (n : nat) (t : R) :
  0 <= t <= 1 -> 1 - 2 ^ n * t <= squarings n (1 - t).
Proof.
  revert t; induction n as [|n IH]; intros t Ht; cbn [squarings].
  - rewrite pow_O; lra.
  - r_ops.
    replace ((1 - t) * (1 - t)) with (1 - (2 * t - t * t)) by ring.
    apply Rle_trans with (1 - 2 ^ n * (2 * t - t * t)); [|apply IH; nra].
    assert (0 <= 2 ^ n) by (apply pow_le; lra).
    simpl pow. nra.
Qed.

Lemma fast_expf_ge (x : R) :
  -1024 <= x <= 1024 -> exp x * (1 - x * x / 1024) <= fast_expf x.
Proof.
  intros Hx.
  unfold fast_expf; r_code.
  set (y := x / 1024).
  assert (Hy : -1 <= y <= 1) by (unfold y; lra).
  assert (Hlow : 0 <= exp y * (1 - y * y) <= 1 + y).
  { pose proof (exp_pos y) as Hp.
    pose proof (exp_ineq1_le (- y)) as Hm; rewrite exp_Ropp in Hm.
    assert (Hi : / exp y * exp y = 1) by (apply Rinv_l; lra).
    assert (Hsq : 0 <= 1 - y * y) by nra.
    split; [apply Rmult_le_pos; lra|].
    assert (H1 : (1 + y) * (1 - y) <= (1 + y) * / exp y) by (apply Rmult_le_compat_l; lra).
    assert (H2 : exp y * ((1 + y) * (1 - y)) <= exp y * ((1 + y) * / exp y))
      by (apply Rmult_le_compat_l; lra).
    replace (exp y * ((1 + y) * / exp y)) with ((1 + y) * (/ exp y * exp y)) in H2 by ring.
    rewrite Hi in H2. lra. }
  apply Rle_trans with (squarings 10 (exp y * (1 - y * y))); [|apply squarings_mono; exact Hlow].
  rewrite squarings_mul, squarings_exp.
  replace (2 ^ 10 * y) with x by (unfold y; simpl; field).
  apply Rmult_le_compat_l; [left; apply exp_pos|].
  pose proof (@squarings_bernoulli 10 (y * y)) as Hb.
  replace (x * x / 1024) with (2 ^ 10 * (y * y)) by (unfold y; simpl; field).
  apply Hb; nra.
Qed.

(** X1: in exact arithmetic, for [x] between -1024 and 1024, [fast_expf x]
    is at most [exp x] and at least [exp x * (1 - x^2 / 1024)]: it
    underestimates the exponential, by a relative error of at most
    [x^2 / 1024]. *)
Lemma fast_expf_accuracy (x : R) :
  -1024 <= x <= 1024 ->
  exp x * (1 - x * x / 1024) <= fast_expf x <= exp x.
Proof.
  intros Hx; split; [apply fast_expf_ge; exact Hx | apply fast_expf_le_exp; lra].
Qed.

Lemma fast_expf_accuracy_witness :
  exp (-11) * (1 - -11 * -11 / 1024) <= fast_expf (-11) <= exp (-11).
Proof. apply (@fast_expf_accuracy (-11)); lra. Defined.

(** X2: in exact arithmetic [fast_expf] is symmetric about -1024:
    [fast_expf (-2048 - x) = fast_expf x].  Below -1024 it does not follow
    the exponential: it grows again as its argument decreases. *)
Lemma fast_expf_reflection (x : R) : fast_expf (-2048 - x) = fast_expf x.
Proof. rewrite !fast_expf_step; f_equal; field. Qed.

(** X3: in exact arithmetic [fast_expf] is non-decreasing from -1024 on. *)
Lemma fast_expf_monotone (x y : R) :
  -1024 <= x -> x <= y -> fast_expf x <= fast_expf y.
Proof.
  intros Hx Hxy; unfold fast_expf; r_code.
  apply squarings_mono; lra.
Qed.

Lemma fast_expf_monotone_witness : fast_expf (-11) <= fast_expf 0.
Proof. apply (@fast_expf_monotone (-11) 0); lra. Defined.

(** In single precision [fast_expf] ends with a squaring. *)
Lemma SFmul_square_not_negative (w : spec_float) :
  SFltb (SFmul Binary32.prec Binary32.emax w w) (S754_zero false) = false.
Proof.
  destruct w as [s|s| |s m e]; cbn [SFmul]; try reflexivity.
  - destruct s; reflexivity.
  - assert (Hs : xorb s s = false) by (destruct s; reflexivity).
    rewrite Hs; unfold binary_round_aux.
    destruct (shr_fexp _ _ _ _ _) as [mrs' e'].
    destruct (shr_fexp _ _ _ _ _) as [mrs'' e''].
    destruct (shr_m mrs''); try reflexivity.
    destruct (Z.leb _ _); reflexivity.
Qed.

(** X9, in single precision, whatever the input and whatever the
    mathematical library: the result of [fast_expf] never compares below
    zero (it is a NaN, a zero, a positive number or plus infinity). *)
Lemma binary32_fast_expf_not_negative (lm : Binary32.libm) (x : Binary32.float) :
  @ltb _ (Binary32.B32Arith lm) (@fast_expf _ (Binary32.B32Arith lm) x)
    (@lit _ (Binary32.B32Arith lm) 0 0) = false.
Proof.
  unfold fast_expf; cbn [squarings].
  cbn [ltb mul lit Binary32.B32Arith].
  apply SFmul_square_not_negative.
Qed.

(** ** The two air masses *)

(** X4: [skybrightness_prepare] computes the air mass of the Moon and of the
    Sun with [expf], [skybrightness_get_luminance] the air mass of the
    direction looked at with [fast_expf].  In exact arithmetic, for a zenith
    distance [z] between 0 and 90 degrees, the air mass of the query is at
    least the air mass [skybrightness_prepare] computes for the same zenith
    distance, and exceeds it by less than 0.31 percent. *)
Lemma target_airmass_close_to_airmass (z : R) :
  0 <= z <= 90 ->
  airmass z <= target_airmass (z * RD)
  /\ 997 * target_airmass (z * RD) <= 1000 * airmass z.
Proof.
  intros Hz.
  pose proof (cos_pos_below_90 Hz) as Hc.
  pose proof (COS_bound (z * RD)) as [_ Hc1].
  rewrite airmass_R, target_airmass_R; unfold airmass_den.
  set (c := cos (z * RD)) in *.
  assert (Hacc : exp (-11 * c) * (1 - -11 * c * (-11 * c) / 1024)
                 <= fast_expf (-11 * c) <= exp (-11 * c)).
  { split; [apply fast_expf_ge; lra | apply fast_expf_le_exp; lra]. }
  pose proof (exp_pos (-11 * c)) as He.
  assert (He1 : exp (-11 * c) <= 1).
  { rewrite <- exp_0; apply exp_le_compat; lra. }
  set (e := exp (-11 * c)) in *; set (f := fast_expf (-11 * c)) in *.
  assert (Hf : 0 < f).
  { unfold f; apply fast_expf_pos; lra. }
  assert (Hgap : e - f <= 121 / 1024 * c).
  { assert (e * (c * c) <= 1 * (c * 1)).
    { apply Rmult_le_compat; try nra. }
    nra. }
  set (da := c + 25 / 1000 * e); set (dt := c + 25 / 1000 * f).
  assert (Hda : 0 < da) by (unfold da; nra).
  assert (Hdt : 0 < dt) by (unfold dt; nra).
  assert (Hle : dt <= da) by (unfold da, dt; lra).
  assert (Hge : 997 / 1000 * da <= dt) by (unfold da, dt; nra).
  assert (Hia : 0 < / da) by (apply Rinv_0_lt_compat; exact Hda).
  assert (Hit : 0 < / dt) by (apply Rinv_0_lt_compat; exact Hdt).
  assert (Haa : da * / da = 1) by (apply Rinv_r; lra).
  assert (Htt : dt * / dt = 1) by (apply Rinv_r; lra).
  unfold Rdiv; rewrite !Rmult_1_l.
  split.
  - apply Rinv_le_contravar; assumption.
  - assert (H1 : / dt <= / (997 / 1000 * da)).
    { apply Rinv_le_contravar; lra. }
    rewrite Rinv_mult in H1.
    replace (/ (997 / 1000)) with (1000 / 997) in H1 by field.
    lra.
Qed.

Lemma target_airmass_close_to_airmass_witness :
  airmass 60 <= target_airmass (60 * RD)
  /\ 997 * target_airmass (60 * RD) <= 1000 * airmass 60.
Proof. apply (@target_airmass_close_to_airmass 60); lra. Defined.

(** ** What [skybrightness_prepare] establishes *)





(** ** Edge cases of [skybrightness_get_luminance]

    The thresholds 80 and 90 of the zenith distance of the Moon, in the three
    arithmetics. *)

#[export] Instance RHorizon : HorizonOrder R.
Proof.
  split; cbn; intros x H.
  apply Rltb_true in H; apply Rltb_false; revert H; r_lits; lra.
Qed.

#[export] Instance XHorizon : HorizonOrder xreal.
Proof.
  split; cbn; intros [x|] H; cbn in *; [|reflexivity].
  apply Rltb_true in H; apply Rltb_false; revert H; r_lits; lra.
Qed.

Lemma SFltb_finite_trans (a b m : positive) (e0 e : Z) (s : bool) :
  (b < a)%positive ->
  SFltb (S754_finite false a e0) (S754_finite s m e) = true ->
  SFltb (S754_finite s m e) (S754_finite false b e0) = false.
Proof.
  intros Hba; unfold SFltb; cbn [SFcompare].
  destruct s; [discriminate|].
  destruct (Z.compare_spec e0 e) as [He|He|He].
  - subst e; rewrite Z.compare_refl.
    fold (Pos.compare a m); fold (Pos.compare m b).
    destruct (a ?= m)%positive eqn:Ham; try discriminate.
    intros _.
    change (a < m)%positive in Ham.
    assert (Hgt : (b < m)%positive) by lia.
    apply Pos.compare_gt_iff in Hgt; rewrite Hgt; reflexivity.
  - intros _.
    assert (Hc : (e ?= e0)%Z = Gt) by (apply Z.compare_gt_iff; lia).
    rewrite Hc; reflexivity.
  - discriminate.
Qed.

Lemma B32Horizon (lm : Binary32.libm) :
  @HorizonOrder Binary32.float (Binary32.B32Arith lm).
Proof.
  split; cbn [lit ltb Binary32.B32Arith].
  change (Binary32.of_decimal 90 0) with (S754_finite false 11796480 (-17)).
  change (Binary32.of_decimal 80 0) with (S754_finite false 10485760 (-17)).
  intros [s|s| |s m e].
  - discriminate.
  - destruct s; [discriminate | reflexivity].
  - discriminate.
  - apply SFltb_finite_trans; reflexivity.
Qed.

Section MoonBelowHorizon.

Context {F : Type} `{FloatOrder F} `{!HorizonOrder F}.
Local Open Scope flt_scope.

(** X7, in every arithmetic whose comparisons behave as those of IEEE 754
    or of the real numbers: when the Moon is more than 90 degrees from the
    zenith, the moonlight term is not added.  The luminance then depends
    neither on the phase of the Moon, nor on the scale of its brightness, nor
    on the angular distance of the direction to the Moon. *)
Lemma moon_below_horizon_is_ignored
    (year month : Z)
    (mp mp' lat alt te rh dmz dsz kt km km' kn md md' sd zd : F) :
  (dmz * DR >? lit 90 0) = true ->
  skybrightness_get_luminance
    (skybrightness_prepare year month mp lat alt te rh dmz dsz kt km kn)
    md sd zd
  = skybrightness_get_luminance
      (skybrightness_prepare year month mp' lat alt te rh dmz dsz kt km' kn)
      md' sd zd.
Proof.
  intros Hgt.
  unfold skybrightness_get_luminance, sky_brightness, total_brightness.
  cbn [skybrightness_prepare ZM].
  assert (Hm : forall BM B : F, add_moon (dmz * DR) BM B = B)
    by (intros; apply add_moon_above_90; auto using above_90_not_below_80).
  rewrite !Hm; reflexivity.
Qed.

End MoonBelowHorizon.

Lemma moon_below_horizon_is_ignored_witness :
  skybrightness_get_luminance
    (skybrightness_prepare 2020 6 0 0 0 0 50 2 0 1 1 1) 0 0 0
  = skybrightness_get_luminance
      (skybrightness_prepare 2020 6 3 0 0 0 50 2 0 1 0 1) 1 0 0.
Proof.
  apply (@moon_below_horizon_is_ignored R _ _ _ 2020 6 0 3 0 0 0 50 2 0 1 1 0 1 0 1 0 0).
  exact two_radians.
Defined.

(** X8: a session whose composite extinction coefficient [K] is 0.  The
    twilight term divides by [360 * K]: it is undefined.  The luminance is
    defined all the same: the comparison of the daylight term (which is 0)
    with the undefined twilight term is false, so that the daylight term is
    the one added, and the result is the dark night term alone, converted to
    cd/m2. *)
Lemma luminance_with_zero_extinction (sb : skybrightness_t R) (md sd zd : R) :
  K sb = 0 -> 0 <= zd <= PI / 2 ->
  twilight (fin_session sb) (Fin sd) (Fin zd) = Undef
  /\ skybrightness_get_luminance (fin_session sb) (Fin md) (Fin sd) (Fin zd)
     = Fin (dark_night sb zd / lit 111 (-17) * NLAMBERT_TO_CDM2)%flt.
Proof.
  intros HK Hzd.
  pose proof (target_den_pos Hzd) as Hden.
  assert (Hdef : cos zd + 25 / 1000 * fast_expf (-11 * cos zd) <> 0) by lra.
  assert (Htw : twilight (fin_session sb) (Fin sd) (Fin zd) = Undef)
    by (apply twilight_undefined; assumption).
  split; [exact Htw|].
  unfold skybrightness_get_luminance, sky_brightness, total_brightness,
    NLAMBERT_TO_CDM2.
  rewrite (@dark_night_fin sb zd Hdef), (@moonlight_fin sb md zd Hdef),
    (@daylight_fin sb sd zd Hdef), Htw.
  assert (Hsc : scattered sb zd = 0).
  { unfold scattered; rewrite HK, exp10f_R.
    replace (-4 / 10 * 0 * target_airmass zd * ln 10) with 0 by ring.
    rewrite exp_0; ring. }
  assert (Hd : daylight sb sd zd = 0) by (rewrite daylight_R, Hsc; ring).
  assert (Hmo : moonlight sb md zd = 0) by (rewrite moonlight_R, Hsc; ring).
  rewrite Hd, Hmo.
  change (ZM (fin_session sb)) with (Fin (ZM sb)).
  unfold night_and_sun at 1; x_ops.
  rewrite add_moon_fin, add_moon_R; x_ops; x_div.
  f_equal. r_code. field.
Qed.

Lemma luminance_with_zero_extinction_witness :
  twilight
    (fin_session
       {| Y := 2020; M := 6; AM := 0; LA := 0; AL := 0; TE := 0; RH := 50;
          ZM := 0; ZS := 0; k_BT := 1; k_BM := 1; k_BN := 1;
          K := 0; XM := 1; XS := 1 |}) (Fin 0) (Fin 0) = Undef
  /\ skybrightness_get_luminance
       (fin_session
          {| Y := 2020; M := 6; AM := 0; LA := 0; AL := 0; TE := 0; RH := 50;
             ZM := 0; ZS := 0; k_BT := 1; k_BM := 1; k_BN := 1;
             K := 0; XM := 1; XS := 1 |}) (Fin 0) (Fin 0) (Fin 0)
     = Fin (dark_night
              {| Y := 2020; M := 6; AM := 0; LA := 0; AL := 0; TE := 0;
                 RH := 50; ZM := 0; ZS := 0; k_BT := 1; k_BM := 1; k_BN := 1;
                 K := 0; XM := 1; XS := 1 |} 0
            / lit 111 (-17) * NLAMBERT_TO_CDM2)%flt.
Proof.
  apply (@luminance_with_zero_extinction
           {| Y := 2020; M := 6; AM := 0; LA := 0; AL := 0; TE := 0; RH := 50;
              ZM := 0; ZS := 0; k_BT := 1; k_BM := 1; k_BN := 1;
              K := 0; XM := 1; XS := 1 |} 0 0 0).
  - reflexivity.
  - pose proof PI_RGT_0; lra.
Defined.

(** ** The scale coefficients, in exact arithmetic *)

Lemma moonlight_without_scale (sb : skybrightness_t R) (md zd : R) :
  k_BM sb = 0 -> moonlight sb md zd = 0.
Proof. intros Hk; rewrite moonlight_R, Hk; ring. Qed.

(** X10, in exact arithmetic: a moon brightness coefficient of 0 removes the
    Moon.  The luminance then depends neither on the phase of the Moon, nor
    on its zenith distance, nor on the angular distance of the direction to
    the Moon. *)
Lemma zero_moon_scale_removes_the_moon
    (year month : Z)
    (mp mp' lat alt te rh dmz dmz' dsz kt kn md md' sd zd : R) :
  skybrightness_get_luminance
    (skybrightness_prepare year month mp lat alt te rh dmz dsz kt 0 kn)
    md sd zd
  = skybrightness_get_luminance
      (skybrightness_prepare year month mp' lat alt te rh dmz' dsz kt 0 kn)
      md' sd zd.
Proof.
  rewrite !luminance_R, !moonlight_without_scale by reflexivity.
  rewrite !Rmult_0_l; reflexivity.
Qed.

Lemma sky_brightness_without_twilight (sb : skybrightness_t R) (md sd zd : R) :
  k_BT sb = 0 -> 0 < K sb -> 0 < target_airmass zd ->
  0 <= K sb * XS sb <= 1600 ->
  sky_brightness sb md sd zd
  = dark_night sb zd + moonlight sb md zd * moon_weight (ZM sb).
Proof.
  intros Ht HK HX HS.
  rewrite sky_brightness_R.
  pose proof (@daylight_nonneg sb sd zd HK HX HS) as Hd.
  assert (Htw : twilight sb sd zd = 0) by (rewrite twilight_R, Ht; ring).
  rewrite Htw, Rmin_left by exact Hd.
  ring.
Qed.

(** X11, in exact arithmetic: a twilight coefficient of 0 removes the Sun
    altogether, the daylight term included, since the smaller of the twilight
    term and of the daylight term is the one added.  For a site as in X6 and
    a direction at or above the horizon, the luminance then depends neither
    on the zenith distance of the Sun nor on the angular distance of the
    direction to the Sun: it is the same at noon and at night. *)
Lemma zero_twilight_scale_removes_the_sun
    (year month : Z)
    (mp lat alt te rh dmz dsz dsz' km kn md sd sd' zd : R) :
  0 <= alt -> te <= 15 -> 0 < rh <= 50 -> -6 <= lat <= 6 ->
  0 <= dsz -> 0 <= dsz' -> 0 <= zd <= PI / 2 ->
  skybrightness_get_luminance
    (skybrightness_prepare year month mp lat alt te rh dmz dsz 0 km kn)
    md sd zd
  = skybrightness_get_luminance
      (skybrightness_prepare year month mp lat alt te rh dmz dsz' 0 km kn)
      md sd' zd.
Proof.
  intros Halt Hte Hrh Hlat Hs Hs' Hzd; pose proof DR_pos.
  pose proof (target_airmass_pos Hzd) as HX.
  assert (HK : 0 < extinction month (lat * DR) alt te rh <= 1)
    by (apply extinction_plausible; rewrite ?DR_RD; lra).
  assert (Hxs : forall d, 0 <= d ->
            0 < (if Rltb (Rlit 90 0) (d * DR) then Rlit 40 0 else airmass (d * DR)) <= 40)
    by (intros d Hd; apply clamped_airmass_bounds; apply Rmult_le_pos; lra).
  pose proof (Hxs dsz Hs) as H1; pose proof (Hxs dsz' Hs') as H2.
  unfold skybrightness_get_luminance.
  rewrite !sky_brightness_without_twilight;
    try assumption; try reflexivity;
    cbn [skybrightness_prepare K XS]; r_ops; try nra; try lra.
Qed.

Lemma zero_twilight_scale_removes_the_sun_witness :
  skybrightness_get_luminance
    (skybrightness_prepare 2020 6 0 1 0 0 50 2 0 0 1 1) 1 0 0
  = skybrightness_get_luminance
      (skybrightness_prepare 2020 6 0 1 0 0 50 2 2 0 1 1) 1 2 0.
Proof.
  apply (@zero_twilight_scale_removes_the_sun 2020 6 0 1 0 0 50 2 0 2 1 1 1 0 2 0);
    try lra.
  pose proof PI_RGT_0; lra.
Defined.

(** ** [unix_to_mjd], in exact arithmetic *)

(** X12: [unix_to_mjd t] is [t / 86400 + 40587]: the Unix epoch is the
    modified Julian day 40587, and 86400 seconds later is one day later. *)
Lemma unix_to_mjd_days (t d : R) :
  SweUtils.unix_to_mjd t = t / 86400 + 40587
  /\ SweUtils.unix_to_mjd (t + 86400 * d) = SweUtils.unix_to_mjd t + d.
Proof.
  unfold SweUtils.unix_to_mjd; r_code; split; field.
Qed.

(** ** The strokes of the pointer, in exact arithmetic *)

Lemma next_radius_bounds (r t : R) :
  Rmax r 8 + 4 / 100 <= Pointer.next_radius r t <= Rmax r 8 + 84 / 100.
Proof.
  unfold Pointer.next_radius; cbv zeta; rewrite max_R; r_code.
  pose proof (SIN_bound (t / Pointer.T * 2 * Pointer.M_PI)) as Hs.
  lra.
Qed.

(** X13, in exact arithmetic: with a selection, [pointer_render] returns 0
    and paints four lines after the selection's own pointer, if its class has
    one; the lines are a quarter turn apart.  The radius is not reset between
    the lines: the first line starts at least 8.04 from the centre and at
    least 5.04 beyond the larger of the two sizes of the selection, and every
    line starts between 0.04 and 0.84 farther out than the line before it,
    whatever the clock returns. *)
Lemma pointer_render_strokes
    (sel : Pointer.selected R) (clock : nat -> R) :
  exists s0 s1 s2 s3 : Pointer.stroke R,
    Pointer.pointer_render (Some sel) clock
    = (0%Z, (if Pointer.render_pointer sel
             then Pointer.RenderPointer :: nil else nil)
            ++ Pointer.Line s0 :: Pointer.Line s1 :: Pointer.Line s2
               :: Pointer.Line s3 :: nil)
    /\ map (@Pointer.quarter R) (s0 :: s1 :: s2 :: s3 :: nil)
       = (0 :: 1 :: 2 :: 3 :: nil)%Z
    /\ 8 + 4 / 100 <= Pointer.radius s0
    /\ Rmax (fst (Pointer.win_size sel)) (snd (Pointer.win_size sel))
       + 5 + 4 / 100 <= Pointer.radius s0
    /\ Pointer.radius s0 + 4 / 100 <= Pointer.radius s1
       <= Pointer.radius s0 + 84 / 100
    /\ Pointer.radius s1 + 4 / 100 <= Pointer.radius s2
       <= Pointer.radius s1 + 84 / 100
    /\ Pointer.radius s2 + 4 / 100 <= Pointer.radius s3
       <= Pointer.radius s2 + 84 / 100.
Proof.
  unfold Pointer.pointer_render; cbv zeta; cbn [Pointer.strokes map].
  do 4 eexists; split; [reflexivity|].
  cbn [Pointer.quarter Pointer.radius map]; split; [reflexivity|].
  rewrite max_R.
  set (r := (Rmax _ _ + of_int 5)%flt).
  assert (Hr : r = Rmax (fst (Pointer.win_size sel)) (snd (Pointer.win_size sel)) + 5)
    by (subst r; r_code; reflexivity).
  pose proof (next_radius_bounds r (clock 0%nat)) as H0.
  set (r0 := Pointer.next_radius r (clock 0%nat)) in *.
  pose proof (next_radius_bounds r0 (clock 1%nat)) as H1.
  set (r1 := Pointer.next_radius r0 (clock 1%nat)) in *.
  pose proof (next_radius_bounds r1 (clock 2%nat)) as H2.
  set (r2 := Pointer.next_radius r1 (clock 2%nat)) in *.
  pose proof (next_radius_bounds r2 (clock 3%nat)) as H3.
  set (r3 := Pointer.next_radius r2 (clock 3%nat)) in *.
  pose proof (Rmax_l r 8); pose proof (Rmax_r r 8).
  assert (E0 : Rmax r0 8 = r0) by (apply Rmax_left; lra).
  assert (E1 : Rmax r1 8 = r1) by (apply Rmax_left; lra).
  assert (E2 : Rmax r2 8 = r2) by (apply Rmax_left; lra).
  rewrite E0 in H1; rewrite E1 in H2; rewrite E2 in H3.
  rewrite <- Hr.
  repeat split; lra.
Qed.

(** ** Strings *)

Local Close Scope R_scope.
Import ListNotations.
Import SweUtils.

Lemma is_nul_iff (c : byte) : is_nul c = true <-> c = x00.
Proof.
  unfold is_nul; split.
  - apply Strings.Byte.byte_dec_bl.
  - intros ->; reflexivity.
Qed.

Lemma char_code_nul (c : byte) : char_code c = 0%Z <-> c = x00.
Proof.
  split; [|intros ->; reflexivity].
  destruct c; vm_compute; intros E; solve [reflexivity | discriminate E].
Qed.

Lemma char_code_inj (a b : byte) : char_code a = char_code b -> a = b.
Proof.
  unfold char_code; intros E.
  apply N2Z.inj in E.
  assert (Ho : Strings.Byte.of_N (Strings.Byte.to_N a)
               = Strings.Byte.of_N (Strings.Byte.to_N b)) by (rewrite E; reflexivity).
  rewrite !Strings.Byte.of_to_N in Ho; congruence.
Qed.

Lemma char_code_of (z : Z) : char_code (char_of z) = (z mod 256)%Z.
Proof.
  unfold char_code, char_of.
  assert (Hr : (0 <= z mod 256 < 256)%Z) by (apply Z.mod_pos_bound; lia).
  destruct (Strings.Byte.of_N (Z.to_N (z mod 256))) as [c|] eqn:Ho.
  - apply Strings.Byte.to_of_N in Ho; rewrite Ho; lia.
  - apply Strings.Byte.of_N_None_iff in Ho; lia.
Qed.

Lemma strlen_c_str (s : list byte) : strlen s = length (c_str s).
Proof.
  induction s as [|c s IH]; cbn; [reflexivity|].
  destruct (is_nul c); cbn; congruence.
Qed.

Lemma c_str_idem (s : list byte) : c_str (c_str s) = c_str s.
Proof.
  induction s as [|c s IH]; cbn; [reflexivity|].
  destruct (is_nul c) eqn:Hc; cbn; [reflexivity|].
  rewrite Hc, IH; reflexivity.
Qed.

(** [strcmp] returns 0 on the strings that have the same bytes before their
    NUL, and on no others. *)
Lemma strcmp_0_iff (a b : list byte) : strcmp a b = 0%Z <-> c_str a = c_str b.
Proof.
  revert b; induction a as [|ca a IH]; intros b.
  - cbn. destruct b as [|cb b]; cbn; [tauto|].
    destruct (is_nul cb) eqn:Hb.
    + apply is_nul_iff in Hb; subst cb; cbn; tauto.
    + split; [|discriminate].
      intros E; assert (Hc : char_code cb = 0%Z) by lia.
      apply char_code_nul in Hc; subst cb; discriminate Hb.
  - cbn [strcmp c_str].
    destruct (Strings.Byte.eqb ca (hd x00 b)) eqn:He.
    + apply Strings.Byte.byte_dec_bl in He.
      destruct (is_nul ca) eqn:Ha.
      * apply is_nul_iff in Ha; subst ca.
        destruct b as [|cb b]; cbn in *; [tauto|].
        subst cb; cbn; tauto.
      * destruct b as [|cb b]; cbn in He.
        { subst ca; discriminate Ha. }
        subst cb; cbn [tl c_str]; rewrite Ha, IH.
        split; intros E; [f_equal; exact E | injection E; auto].
    + apply Strings.Byte.eqb_false in He.
      split.
      * intros E; exfalso; apply He, char_code_inj; lia.
      * intros E; exfalso; apply He.
        destruct (is_nul ca) eqn:Ha.
        -- apply is_nul_iff in Ha; subst ca.
           destruct b as [|cb b]; cbn in *; [reflexivity|].
           destruct (is_nul cb) eqn:Hb; [|discriminate E].
           apply is_nul_iff in Hb; congruence.
        -- destruct b as [|cb b]; cbn in *; [discriminate E|].
           destruct (is_nul cb); [discriminate E|].
           injection E; auto.
Qed.

Lemma c_str_skipn (n : nat) (s : list byte) :
  (n <= strlen s)%nat -> c_str (skipn n s) = skipn n (c_str s).
Proof.
  revert s; induction n as [|n IH]; intros s Hn; [reflexivity|].
  destruct s as [|c s]; cbn in *; [reflexivity|].
  destruct (is_nul c) eqn:Hc; cbn in *; [lia|].
  apply IH; lia.
Qed.

Lemma str_endswith_some (s e : list byte) :
  str_endswith (Some s) (Some e) = true <-> exists p, c_str s = p ++ c_str e.
Proof.
  split.
  - unfold str_endswith.
    destruct (strlen s <? strlen e)%nat eqn:Hlt; [discriminate|].
    apply Nat.ltb_ge in Hlt.
    intros Hc; apply Z.eqb_eq, strcmp_0_iff in Hc.
    rewrite c_str_skipn in Hc by lia.
    exists (firstn (strlen s - strlen e) (c_str s)).
    rewrite <- Hc; symmetry; apply firstn_skipn.
  - intros (p & Hs); unfold str_endswith.
    assert (Hl : strlen s = (length p + strlen e)%nat).
    { rewrite !strlen_c_str, Hs, length_app; reflexivity. }
    replace (strlen s <? strlen e)%nat with false
      by (symmetry; apply Nat.ltb_ge; lia).
    apply Z.eqb_eq, strcmp_0_iff.
    rewrite c_str_skipn by lia.
    rewrite Hs, Hl.
    replace (length p + strlen e - strlen e)%nat with (length p + 0)%nat by lia.
    rewrite skipn_app, Nat.add_0_r, skipn_all.
    replace (length p - length p)%nat with O by lia.
    reflexivity.
Qed.

(** X14: [str_endswith str end] is true exactly when neither pointer is
    NULL and the bytes of [end] before its NUL are a suffix of the bytes of
    [str] before its NUL.  In particular it is false when either pointer is
    NULL, and true for an empty [end]. *)
Lemma str_endswith_iff_suffix (str end' : option (list byte)) :
  str_endswith str end' = true
  <-> exists s e p, str = Some s /\ end' = Some e /\ c_str s = p ++ c_str e.
Proof.
  split.
  - destruct str as [s|], end' as [e|]; try discriminate.
    intros Hs; apply str_endswith_some in Hs; destruct Hs as (p & Hs).
    exists s, e, p; auto.
  - intros (s & e & p & -> & -> & Hs).
    apply str_endswith_some; exists p; exact Hs.
Qed.

Lemma to_upper_nul (c : byte) : is_nul (to_upper c) = is_nul c.
Proof. destruct c; reflexivity. Qed.

Lemma to_upper_idem (c : byte) : to_upper (to_upper c) = to_upper c.
Proof. destruct c; reflexivity. Qed.

Lemma to_upper_not_lower (c : byte) :
  ((char_code "a" <=? char_code (to_upper c))
   && (char_code (to_upper c) <=? char_code "z"))%Z = false.
Proof. destruct c; reflexivity. Qed.

Lemma str_to_upper_map (s : list byte) :
  str_to_upper s = map to_upper (c_str s) ++ [x00].
Proof.
  induction s as [|c s IH]; cbn; [reflexivity|].
  destruct (is_nul c); cbn; [reflexivity|].
  rewrite IH; reflexivity.
Qed.

Lemma c_str_map_to_upper (s : list byte) :
  c_str (map to_upper s) = map to_upper (c_str s).
Proof.
  induction s as [|c s IH]; cbn; [reflexivity|].
  rewrite to_upper_nul; destruct (is_nul c); cbn; congruence.
Qed.

Lemma c_str_terminated (s : list byte) : c_str (c_str s ++ [x00]) = c_str s.
Proof.
  induction s as [|c s IH]; cbn; [reflexivity|].
  destruct (is_nul c) eqn:Hc; cbn; [reflexivity|].
  rewrite Hc, IH; reflexivity.
Qed.

Lemma c_str_str_to_upper (s : list byte) :
  c_str (str_to_upper s) = map to_upper (c_str s).
Proof.
  rewrite str_to_upper_map.
  rewrite <- (c_str_idem s) at 1.
  rewrite <- c_str_map_to_upper.
  rewrite c_str_terminated, c_str_map_to_upper, c_str_idem.
  reflexivity.
Qed.

(** X15: [str_to_upper] writes one byte more than the length of [s], the
    last one being the NUL: [out] needs [strlen s + 1] bytes, and holds a
    string of the length of [s]. *)
Lemma str_to_upper_fills_out (s : list byte) :
  length (str_to_upper s) = S (strlen s)
  /\ strlen (str_to_upper s) = strlen s
  /\ nth (strlen s) (str_to_upper s) "a"%byte = x00.
Proof.
  repeat split.
  - rewrite str_to_upper_map, length_app, length_map, strlen_c_str; cbn; lia.
  - rewrite !strlen_c_str, c_str_str_to_upper, length_map; reflexivity.
  - rewrite str_to_upper_map, strlen_c_str.
    rewrite app_nth2 by (rewrite length_map; lia).
    rewrite length_map, Nat.sub_diag; reflexivity.
Qed.

(** X16: the result of [str_to_upper] holds no lower case letter [a] to [z],
    and converting it again changes nothing. *)
Lemma str_to_upper_idempotent (s : list byte) :
  str_to_upper (str_to_upper s) = str_to_upper s
  /\ Forall (fun c => ~ (char_code "a" <= char_code c <= char_code "z")%Z)
       (str_to_upper s).
Proof.
  split.
  - rewrite (str_to_upper_map (str_to_upper s)), c_str_str_to_upper.
    rewrite map_map, (str_to_upper_map s).
    f_equal; apply map_ext; intros c; apply to_upper_idem.
  - rewrite str_to_upper_map; apply Forall_app; split.
    + apply Forall_forall; intros c Hin.
      apply in_map_iff in Hin; destruct Hin as (c0 & <- & _).
      pose proof (to_upper_not_lower c0) as Hn.
      apply andb_false_iff in Hn.
      destruct Hn as [Hn|Hn]; apply Z.leb_gt in Hn; lia.
    + constructor; [|constructor].
      vm_compute; intros [H1 _]; apply H1; reflexivity.
Qed.

(** X17: [str_to_upper] keeps suffixes: when [str] ends with [end], the
    upper case of [str] ends with the upper case of [end]. *)
Lemma str_endswith_after_str_to_upper (str end' : list byte) :
  str_endswith (Some str) (Some end') = true ->
  str_endswith (Some (str_to_upper str)) (Some (str_to_upper end')) = true.
Proof.
  intros Hs; apply str_endswith_some in Hs.
  destruct Hs as (p & Hs).
  apply str_endswith_some.
  exists (map to_upper p).
  rewrite !c_str_str_to_upper, Hs, map_app; reflexivity.
Qed.

Lemma str_endswith_after_str_to_upper_witness :
  str_endswith (Some (str_to_upper [x73; x2e; x67; x7a]))
    (Some (str_to_upper [x2e; x67; x7a])) = true.
Proof.
  apply (@str_endswith_after_str_to_upper [x73; x2e; x67; x7a] [x2e; x67; x7a]).
  reflexivity.
Defined.

(** ** The gzip header *)

Lemma uint32_at_le32 (n : Z) :
  (0 <= n < 4294967296)%Z -> uint32_at (le32 n) = n.
Proof.
  intros Hn; unfold uint32_at, le32; cbn [nth].
  rewrite !char_code_of.
  Z.div_mod_to_equations; lia.
Qed.

Lemma strlen_name (name rest : list byte) :
  ~ In x00 name -> strlen (name ++ x00 :: rest) = length name.
Proof.
  induction name as [|c name IH]; cbn; intros Hn; [reflexivity|].
  destruct (is_nul c) eqn:Hc.
  - apply is_nul_iff in Hc; subst c; tauto.
  - rewrite IH; tauto.
Qed.

Lemma existsb_nul_name (name rest : list byte) :
  existsb is_nul (name ++ x00 :: rest) = true.
Proof.
  rewrite existsb_app; cbn; apply orb_true_r.
Qed.

Lemma skipn_prefix (A : Type) (p rest : list A) (n : nat) :
  n = length p -> skipn n (p ++ rest) = rest.
Proof.
  intros ->; rewrite skipn_app, skipn_all, Nat.sub_diag; reflexivity.
Qed.

(** What [z_uncompress_gz] makes of a gzip member. *)
Lemma z_uncompress_gz_of_member
    (hdr name deflated crc : list byte) (isize : Z) :
  length hdr = 6%nat -> ~ In x00 name -> length crc = 4%nat ->
  (0 <= isize < 4294967296)%Z ->
  z_uncompress_gz (gz_member hdr name deflated crc isize)
  = Returned {| out_size := to_int isize;
                decode_olen := to_int isize;
                decode_offset := 11 + length name;
                decode_input := deflated ++ crc ++ le32 isize;
                decode_ilen := Z.of_nat (length deflated) |}.
Proof.
  intros Hh Hn Hc Hi.
  destruct hdr as [|h0 [|h1 [|h2 [|h3 [|h4 [|h5 [|]]]]]]]; try discriminate Hh.
  destruct crc as [|c0 [|c1 [|c2 [|c3 [|]]]]]; try discriminate Hc.
  unfold z_uncompress_gz, gz_member.
  set (src := [x1f; x8b; x08; x08] ++ _).
  assert (Hlen : length src = (19 + length name + length deflated)%nat).
  { subst src; cbn [app length]; rewrite !length_app; cbn [length];
      rewrite length_app; cbn; lia. }
  rewrite Hlen.
  replace (10 <=? Z.of_nat (19 + length name + length deflated))%Z with true
    by (symmetry; apply Z.leb_le; lia).
  cbn [assert bind].
  change (nth 0 src x00) with x1f; change (nth 1 src x00) with x8b.
  change (nth 2 src x00) with x08; change (nth 3 src x00) with x08.
  change (Strings.Byte.eqb x1f x1f) with true.
  change (Strings.Byte.eqb x8b x8b) with true.
  change (Strings.Byte.eqb x08 x08) with true.
  cbn [assert bind].
  unfold strlen_at.
  change (skipn (4 + 6) src)
    with (name ++ x00 :: deflated ++ [c0; c1; c2; c3] ++ le32 isize).
  rewrite existsb_nul_name, strlen_name by assumption.
  cbn [bind].
  assert (Hd : skipn (4 + 6 + (length name + 1)) src
               = deflated ++ [c0; c1; c2; c3] ++ le32 isize).
  { replace src
      with (([x1f; x8b; x08; x08; h0; h1; h2; h3; h4; h5] ++ name ++ [x00])
            ++ deflated ++ [c0; c1; c2; c3] ++ le32 isize)
      by (subst src; rewrite <- !app_assoc; reflexivity).
    apply skipn_prefix; cbn [app length]; rewrite !length_app; cbn; lia. }
  assert (Hf : skipn (Z.to_nat (Z.of_nat (19 + length name + length deflated) - 8)) src
               = [c0; c1; c2; c3] ++ le32 isize).
  { replace src
      with (([x1f; x8b; x08; x08; h0; h1; h2; h3; h4; h5] ++ name ++ [x00]
             ++ deflated) ++ [c0; c1; c2; c3] ++ le32 isize)
      by (subst src; rewrite <- !app_assoc; reflexivity).
    apply skipn_prefix; cbn [app length]; rewrite !length_app; cbn [length]; lia. }
  rewrite Hd, Hf.
  change (skipn 4 (firstn 8 ([c0; c1; c2; c3] ++ le32 isize))) with (le32 isize).
  rewrite uint32_at_le32 by assumption.
  f_equal; f_equal; lia.
Qed.





(** [z_uncompress_gz] past its first assertion. *)
Lemma z_uncompress_gz_header (b0 b1 b2 b3 : byte) (rest : list byte) :
  (6 <= length rest)%nat ->
  z_uncompress_gz (b0 :: b1 :: b2 :: b3 :: rest)
  = if (Strings.Byte.eqb b0 x1f && Strings.Byte.eqb b1 x8b
        && Strings.Byte.eqb b2 x08 && Strings.Byte.eqb b3 x08)%bool
    then
      n <- strlen_at (b0 :: b1 :: b2 :: b3 :: rest) 10 ;;
      let src_size := Z.of_nat (length (b0 :: b1 :: b2 :: b3 :: rest)) in
      let footer :=
        firstn 8 (skipn (Z.to_nat (src_size - 8)) (b0 :: b1 :: b2 :: b3 :: rest)) in
      let isize := to_int (uint32_at (skipn 4 footer)) in
      Returned {| out_size := isize;
                  decode_olen := isize;
                  decode_offset := 10 + (n + 1);
                  decode_input := skipn (10 + (n + 1)) (b0 :: b1 :: b2 :: b3 :: rest);
                  decode_ilen := src_size - 8 - Z.of_nat (10 + (n + 1)) |}
    else AssertionFailed.
Proof.
  intros Hl; unfold z_uncompress_gz.
  replace (10 <=? Z.of_nat (length (b0 :: b1 :: b2 :: b3 :: rest)))%Z with true
    by (symmetry; apply Z.leb_le; cbn [length]; lia).
  cbn [assert bind nth].
  destruct (Strings.Byte.eqb b0 x1f); cbn [assert bind andb]; [|reflexivity].
  destruct (Strings.Byte.eqb b1 x8b); cbn [assert bind andb]; [|reflexivity].
  destruct (Strings.Byte.eqb b2 x08); cbn [assert bind andb]; [|reflexivity].
  destruct (Strings.Byte.eqb b3 x08); cbn [assert bind andb]; reflexivity.
Qed.

Lemma z_uncompress_gz_too_short (src : list byte) :
  (length src < 10)%nat -> z_uncompress_gz src = AssertionFailed.
Proof.
  intros Hl; unfold z_uncompress_gz.
  replace (10 <=? Z.of_nat (length src))%Z with false
    by (symmetry; apply Z.leb_gt; lia).
  reflexivity.
Qed.

(** X20: an assertion of [z_uncompress_gz] fails exactly when the input has
    fewer than 10 bytes or does not start with the bytes 1f 8b 08 08: the
    magic number, the deflate method and the flags FNAME alone.  A gzip file
    without a name, or with any other flag, is not read. *)
Lemma z_uncompress_gz_assertions (src : list byte) :
  z_uncompress_gz src = AssertionFailed
  <-> (length src < 10)%nat \/ firstn 4 src <> [x1f; x8b; x08; x08].
Proof.
  destruct (Nat.lt_ge_cases (length src) 10) as [Hl|Hl].
  - rewrite z_uncompress_gz_too_short by assumption; tauto.
  - destruct src as [|b0 [|b1 [|b2 [|b3 rest]]]]; cbn [length] in Hl; try lia.
    rewrite z_uncompress_gz_header by lia.
    cbn [firstn].
    destruct (Strings.Byte.eqb b0 x1f) eqn:E0; cbn [andb].
    2:{ apply Strings.Byte.eqb_false in E0; split; [|reflexivity].
        intros _; right; congruence. }
    destruct (Strings.Byte.eqb b1 x8b) eqn:E1; cbn [andb].
    2:{ apply Strings.Byte.eqb_false in E1; split; [|reflexivity].
        intros _; right; congruence. }
    destruct (Strings.Byte.eqb b2 x08) eqn:E2; cbn [andb].
    2:{ apply Strings.Byte.eqb_false in E2; split; [|reflexivity].
        intros _; right; congruence. }
    destruct (Strings.Byte.eqb b3 x08) eqn:E3; cbn [andb].
    2:{ apply Strings.Byte.eqb_false in E3; split; [|reflexivity].
        intros _; right; congruence. }
    apply Strings.Byte.byte_dec_bl in E0, E1, E2, E3; subst.
    unfold strlen_at.
    destruct (existsb is_nul _); cbn [bind]; split; try discriminate;
      intros [H|H]; solve [cbn [length] in H; lia | congruence].
Qed.

(** X21: the assertion on the size asks for 10 bytes, the header without a
    name; the name, its NUL and the 8 bytes that end the member make 19.
    Whenever [z_uncompress_gz] returns on an input of fewer than 19 bytes, the
    length of the compressed data it hands to the decoder is negative. *)
Lemma z_uncompress_gz_short_member (src : list byte) (r : gz_call) :
  z_uncompress_gz src = Returned r -> (length src < 19)%nat ->
  (decode_ilen r < 0)%Z.
Proof.
  intros Hr Hl.
  destruct (Nat.lt_ge_cases (length src) 10) as [Hs|Hs].
  - rewrite z_uncompress_gz_too_short in Hr by assumption; discriminate Hr.
  - destruct src as [|b0 [|b1 [|b2 [|b3 rest]]]]; cbn [length] in Hs; try lia.
    rewrite z_uncompress_gz_header in Hr by lia.
    destruct (_ && _)%bool; [|discriminate Hr].
    unfold strlen_at in Hr.
    destruct (existsb is_nul _); cbn [bind] in Hr; [|discriminate Hr].
    apply (f_equal (fun o => match o with
                             | Returned c => decode_ilen c
                             | _ => 0%Z
                             end)) in Hr.
    cbn [decode_ilen length] in Hr, Hl; lia.
Qed.

Lemma z_uncompress_gz_short_member_witness :
  (decode_ilen
     {| out_size := 0; decode_olen := 0; decode_offset := 11;
        decode_input := [x00]; decode_ilen := -7 |} < 0)%Z.
Proof.
  apply (@z_uncompress_gz_short_member
           [x1f; x8b; x08; x08; x00; x00; x00; x00; x00; x00; x00; x00]).
  - reflexivity.
  - cbn; lia.
Defined.
